(** * Messaging subsystem of the second-hand marketplace

    A shallow embedding of
    - [backend/controllers/messageController.js] (the six request handlers),
    - [backend/models/Conversation.js] (the conversation schema),
    - the two polling React components [ConversationList] and [Conversation],
    together with the properties the specification states about them.

    Document collections are lists in insertion (natural) order.  Object
    identifiers are natural numbers handed out by a counter; a request's
    reading of the clock is an argument [now] of the handler. *)

From Stdlib Require Import List Arith NArith Bool String Lia Permutation Sorted.
Import ListNotations.
Local Open Scope nat_scope.
Local Open Scope list_scope.

(** ** Identifiers and small helpers *)

Definition ObjectId := nat.

(** [Array.prototype.includes] on an array of identifiers. *)
Definition includes (x : ObjectId) (l : list ObjectId) : bool :=
  existsb (Nat.eqb x) l.

Definition oid_opt_eqb (a b : option ObjectId) : bool :=
  match a, b with
  | Some x, Some y => Nat.eqb x y
  | None, None => true
  | _, _ => false
  end.

(** A request field is falsy when it is absent or the empty string. *)
Definition truthy (o : option string) : option string :=
  match o with
  | Some EmptyString => None
  | Some t => Some t
  | None => None
  end.

(** [$addToSet]: append unless already present. *)
Definition addToSet (x : ObjectId) (l : list ObjectId) : list ObjectId :=
  if includes x l then l else l ++ [x].

(** Stable insertion sort; [le a b = true] means [a] may stand before [b].
    It stands for the store's [.sort(...)] on a query result. *)
Section Sorting.
Context {A : Type} (le : A -> A -> bool).

Fixpoint insert_by (x : A) (l : list A) : list A :=
  match l with
  | [] => [x]
  | y :: l' => if le x y then x :: y :: l' else y :: insert_by x l'
  end.

Fixpoint sort_by (l : list A) : list A :=
  match l with
  | [] => []
  | x :: l' => insert_by x (sort_by l')
  end.
End Sorting.

(** ** models/Conversation.js *)

Module Conversation.

Record doc := mk {
  _id : ObjectId;
  participants : list ObjectId;
  itemId : option ObjectId;          (* [None]: the field is absent *)
  lastMessage : option ObjectId;
  createdAt : nat;                   (* { timestamps: true } *)
  updatedAt : nat
}.

Definition collection := list doc.

Definition find (q : doc -> bool) (c : collection) : list doc := filter q c.

Definition findOne (q : doc -> bool) (c : collection) : option doc :=
  List.find q c.

Definition findById (id : ObjectId) (c : collection) : option doc :=
  findOne (fun d => Nat.eqb (_id d) id) c.

Definition set_lastMessage (m : ObjectId) (d : doc) : doc :=
  mk (_id d) (participants d) (itemId d) (Some m) (createdAt d) (updatedAt d).

(** The stored document [e] takes the fields of [d]; [createdAt] is
    immutable and [updatedAt] moves. *)
Definition overwrite (now : nat) (d e : doc) : doc :=
  mk (_id d) (participants d) (itemId d) (lastMessage d) (createdAt e) now.

Definition stamp (now : nat) (d : doc) : doc :=
  mk (_id d) (participants d) (itemId d) (lastMessage d) now now.

(** [doc.save()]: insert a new document (both timestamps set), or write
    the document over the stored one with the same identifier and move
    [updatedAt].  Every save of an existing conversation in the controller
    follows the assignment of a newly generated message identifier to
    [lastMessage], or repeats a save of the same request instant. *)
Definition save (now : nat) (d : doc) (c : collection) : collection :=
  if existsb (fun e => Nat.eqb (_id e) (_id d)) c
  then map (fun e => if Nat.eqb (_id e) (_id d) then overwrite now d e else e) c
  else c ++ [stamp now d].

(** { participants: { $in: [user] } } *)
Definition q_participant (user : ObjectId) (d : doc) : bool :=
  includes user (participants d).

(** { participants: { $all: [user, receiver] }, itemId: itemId || null } *)
Definition q_pair_item (user receiver : ObjectId) (item : option ObjectId)
    (d : doc) : bool :=
  includes user (participants d) && includes receiver (participants d)
  && oid_opt_eqb (itemId d) item.

End Conversation.

(** ** The Message model

    [models/Message.js] is not part of the sources at hand.  The fields are
    the ones the controller writes and queries: [conversationId], [senderId],
    [content], [readBy], [createdAt], and the flag [read] that
    [getMessagesByConversation] filters on and sets.  [read = None] stands for
    a document without that field; what a new document gets for it is the
    schema's business and is a parameter of [create]. *)

Module Message.

Record doc := mk {
  _id : ObjectId;
  conversationId : ObjectId;
  senderId : ObjectId;
  content : string;
  readBy : list ObjectId;
  read : option bool;
  createdAt : nat
}.

Definition collection := list doc.

Definition eq_dec (a b : doc) : {a = b} + {a <> b}.
Proof.
  decide equality; try apply Nat.eq_dec; try apply string_dec.
  - decide equality. apply Bool.bool_dec.
  - apply (list_eq_dec Nat.eq_dec).
Defined.

Definition find (q : doc -> bool) (c : collection) : list doc := filter q c.

Definition findById (id : ObjectId) (c : collection) : option doc :=
  List.find (fun d => Nat.eqb (_id d) id) c.

Definition countDocuments (q : doc -> bool) (c : collection) : nat :=
  List.length (filter q c).

Record UpdateResult := mkResult { matchedCount : nat; modifiedCount : nat }.

(** [updateMany(filter, update)]: every matching document is rewritten;
    [modifiedCount] counts the ones the update really changed. *)
Definition updateMany (q : doc -> bool) (upd : doc -> doc) (c : collection)
    : UpdateResult * collection :=
  (mkResult (List.length (filter q c))
            (List.length (filter (fun d => q d && (if eq_dec (upd d) d then false else true)) c)),
   map (fun d => if q d then upd d else d) c).

Definition create (read_default : option bool) (now : nat) (id : ObjectId)
    (conv sender : ObjectId) (text : string) (readers : list ObjectId)
    (c : collection) : doc * collection :=
  let m := mk id conv sender text readers read_default now in
  (m, c ++ [m]).

(** { conversationId, senderId: { $ne: user }, readBy: { $nin: [user] } } *)
Definition q_unread (conv user : ObjectId) (d : doc) : bool :=
  Nat.eqb (conversationId d) conv
  && negb (Nat.eqb (senderId d) user)
  && negb (includes user (readBy d)).

(** { conversationId, senderId: { $ne: user }, read: false } *)
Definition q_read_false (conv user : ObjectId) (d : doc) : bool :=
  Nat.eqb (conversationId d) conv
  && negb (Nat.eqb (senderId d) user)
  && match read d with Some false => true | _ => false end.

(** { $addToSet: { readBy: user } } *)
Definition u_addToSet_readBy (user : ObjectId) (d : doc) : doc :=
  mk (_id d) (conversationId d) (senderId d) (content d)
     (addToSet user (readBy d)) (read d) (createdAt d).

(** { read: true } *)
Definition u_read_true (d : doc) : doc :=
  mk (_id d) (conversationId d) (senderId d) (content d)
     (readBy d) (Some true) (createdAt d).

End Message.

(** ** The store and the handler monad *)

Record Store := mkStore {
  users : list ObjectId;                     (* the user directory *)
  conversations : Conversation.collection;
  messages : Message.collection;
  next_id : nat                              (* identifier generator *)
}.

(** [new ErrorResponse(message, statusCode)]; the text is left out. *)
Record ErrorResponse := mkError { statusCode : nat }.

(** A handler either sends its response ([res.status(..).json(..)]) or
    hands an error to [next]. Writes made before an error stay. *)
Inductive Outcome (A : Type) : Type :=
| Sent (a : A)
| Next (e : ErrorResponse).
Arguments Sent {A} a.
Arguments Next {A} e.

Definition Handler (A : Type) : Type := Store -> Outcome A * Store.

Definition ret {A} (a : A) : Handler A := fun s => (Sent a, s).

Definition next {A} (code : nat) : Handler A := fun s => (Next (mkError code), s).

Definition bind {A B} (m : Handler A) (k : A -> Handler B) : Handler B :=
  fun s =>
    match m s with
    | (Sent a, s') => k a s'
    | (Next e, s') => (Next e, s')
    end.

Definition gets {A} (f : Store -> A) : Handler A := fun s => (Sent (f s), s).

Definition modify (f : Store -> Store) : Handler unit := fun s => (Sent tt, f s).

Notation "x <- c ;; k" := (bind c (fun x => k))
  (at level 61, c at next level, right associativity).
Notation "c ;; k" := (bind c (fun _ => k))
  (at level 61, right associativity).

(** The error classes of the interface. *)
Definition BadRequest (e : ErrorResponse) : Prop := statusCode e = 400.
Definition NotFound (e : ErrorResponse) : Prop := statusCode e = 404.
Definition Forbidden (e : ErrorResponse) : Prop :=
  statusCode e = 401 \/ statusCode e = 403.

(** Store-level wrappers of the model operations. *)

Definition User_findById (id : ObjectId) (s : Store) : bool :=
  includes id (users s).

Definition Conversation_findById (id : ObjectId) : Handler (option Conversation.doc) :=
  gets (fun s => Conversation.findById id (conversations s)).

Definition Conversation_save (now : nat) (d : Conversation.doc) : Handler unit :=
  modify (fun s => mkStore (users s) (Conversation.save now d (conversations s))
                           (messages s) (next_id s)).

(** A new ObjectId (generated on the client side of the store). *)
Definition fresh_id : Handler ObjectId :=
  fun s => (Sent (next_id s),
            mkStore (users s) (conversations s) (messages s) (S (next_id s))).

Definition Message_create (read_default : option bool) (now : nat)
    (conv sender : ObjectId) (text : string) (readers : list ObjectId)
    : Handler Message.doc :=
  id <- fresh_id ;;
  fun s =>
    let (m, ms) := Message.create read_default now id conv sender text readers (messages s) in
    (Sent m, mkStore (users s) (conversations s) ms (next_id s)).

Definition Message_updateMany (q : Message.doc -> bool) (upd : Message.doc -> Message.doc)
    : Handler Message.UpdateResult :=
  fun s =>
    let (r, ms) := Message.updateMany q upd (messages s) in
    (Sent r, mkStore (users s) (conversations s) ms (next_id s)).

(** Population: a reference is replaced by the document it resolves to.
    Participants that resolve to no user drop out of the array; the item
    catalogue is outside the model, so [itemId] stays a reference. *)
Record Populated := mkPopulated {
  p_doc : Conversation.doc;
  p_participants : list ObjectId;
  p_lastMessage : option Message.doc
}.

Definition populate_participants (s : Store) (d : Conversation.doc) : list ObjectId :=
  filter (fun p => User_findById p s) (Conversation.participants d).

Definition populate_lastMessage (s : Store) (d : Conversation.doc) : option Message.doc :=
  match Conversation.lastMessage d with
  | Some m => Message.findById m (messages s)
  | None => None
  end.

(** [Conversation.findById(id)] with participants and last message populated. *)
Definition populated (id : ObjectId) (s : Store) : option Populated :=
  option_map (fun d => mkPopulated d (populate_participants s d) (populate_lastMessage s d))
             (Conversation.findById id (conversations s)).

(** [conv.toObject()] with the added property. *)
Record ConvObject := mkConvObject {
  conv : Populated;
  unreadCount : nat
}.

Record CreateBody := mkCreateBody {
  cb_receiverId : option ObjectId;
  cb_itemId : option ObjectId;
  cb_initialMessage : option string
}.

Record SendBody := mkSendBody {
  sb_conversationId : option ObjectId;
  sb_content : option string
}.

(** ** controllers/messageController.js *)

Section Controller.

(** What the Message schema gives a new document for [read]. *)
Variable read_default : option bool.

(** GET /api/conversations *)
Definition getConversations (user : ObjectId) : Handler (list ConvObject) :=
  conversations <- gets (fun s =>
    map (fun d => mkPopulated d (populate_participants s d) (populate_lastMessage s d))
        (sort_by (fun a b => Conversation.updatedAt b <=? Conversation.updatedAt a)
           (Conversation.find (Conversation.q_participant user) (conversations s)))) ;;
  conversationsWithUnreadCount <- gets (fun s =>
    map (fun conv =>
           mkConvObject conv
             (Message.countDocuments
                (Message.q_unread (Conversation._id (p_doc conv)) user) (messages s)))
        conversations) ;;
  ret conversationsWithUnreadCount.

(** GET /api/conversations/:id *)
Definition getConversation (user id : ObjectId) : Handler Populated :=
  conversation <- gets (fun s =>
    option_map (fun d => mkPopulated d (populate_participants s d) None)
               (Conversation.findById id (conversations s))) ;;
  match conversation with
  | None => next 404
  | Some conversation =>
      if negb (existsb (fun p => Nat.eqb p user) (p_participants conversation))
      then next 401
      else ret conversation
  end.

(** POST /api/conversations *)
Definition createConversation (now : nat) (user : ObjectId) (body : CreateBody)
    : Handler (option Populated * Message.doc) :=
  match cb_receiverId body, truthy (cb_initialMessage body) with
  | Some receiverId, Some initialMessage =>
      receiver <- gets (User_findById receiverId) ;;
      if negb receiver then next 404 else
      found <- gets (fun s =>
        Conversation.findOne
          (Conversation.q_pair_item user receiverId (cb_itemId body))
          (conversations s)) ;;
      ci <- match found with
            | Some c => ret (c, false)
            | None =>
                (* new Conversation({...}): the timestamps are set by save *)
                id <- fresh_id ;;
                ret (Conversation.mk id [user; receiverId] (cb_itemId body) None 0 0,
                     true)
            end ;;
      let conversation := fst ci in
      let isNewConversation := snd ci in
      message <- Message_create read_default now (Conversation._id conversation)
                   user initialMessage [user] ;;
      let conversation :=
        Conversation.set_lastMessage (Message._id message) conversation in
      (if isNewConversation then Conversation_save now conversation else ret tt) ;;
      let conversation :=
        Conversation.set_lastMessage (Message._id message) conversation in
      Conversation_save now conversation ;;
      populatedConversation <- gets (populated (Conversation._id conversation)) ;;
      ret (populatedConversation, message)
  | _, _ => next 400
  end.

(** GET /api/messages/conversation/:conversationId *)
Definition getMessagesByConversation (user conversationId : ObjectId)
    : Handler (list Message.doc) :=
  conversation <- Conversation_findById conversationId ;;
  match conversation with
  | None => next 404
  | Some conversation =>
      if negb (includes user (Conversation.participants conversation))
      then next 401
      else
        messages <- gets (fun s =>
          sort_by (fun a b => Message.createdAt a <=? Message.createdAt b)
            (Message.find (fun m => Nat.eqb (Message.conversationId m) conversationId)
               (messages s))) ;;
        Message_updateMany (Message.q_read_false conversationId user)
                           Message.u_read_true ;;
        ret messages
  end.

(** POST /api/conversations/:conversationId/read; the response carries
    [modifiedCount]. *)
Definition markMessagesAsRead (userId conversationId : ObjectId) : Handler nat :=
  conversation <- Conversation_findById conversationId ;;
  match conversation with
  | None => next 404
  | Some conversation =>
      if negb (includes userId (Conversation.participants conversation))
      then next 403
      else
        result <- Message_updateMany (Message.q_unread conversationId userId)
                                     (Message.u_addToSet_readBy userId) ;;
        ret (Message.modifiedCount result)
  end.

(** POST /api/messages *)
Definition sendMessage (now : nat) (user : ObjectId) (body : SendBody)
    : Handler Message.doc :=
  match sb_conversationId body, truthy (sb_content body) with
  | Some conversationId, Some content =>
      conversation <- Conversation_findById conversationId ;;
      match conversation with
      | None => next 404
      | Some conversation =>
          if negb (includes user (Conversation.participants conversation))
          then next 401
          else
            message <- Message_create read_default now conversationId
                         user content [user] ;;
            let conversation :=
              Conversation.set_lastMessage (Message._id message) conversation in
            Conversation_save now conversation ;;
            ret message
      end
  | _, _ => next 400
  end.

End Controller.

(** ** The polling components

    A function component is a function of its state at one render: every
    [const] of [useState] and every function declared in the body belongs to
    that render.  An effect's callbacks (the timer callback among them) keep
    the functions of the render in which the effect ran.  A call of an
    [async] function runs to its first [await], where it is parked in
    [pending] until the request settles.  Responses carry identifiers only. *)

Definition Response := option (list ObjectId).   (* [None]: the request failed *)

Fixpoint remove_nth {A} (i : nat) (l : list A) : list A :=
  match i, l with
  | _, [] => []
  | O, _ :: l' => l'
  | S i', x :: l' => x :: remove_nth i' l'
  end.

Module ConversationList.

Record State := mkState {
  conversations : list ObjectId;
  loading : bool;
  error : bool;               (* [error] is a non-empty text *)
  isFetching : bool
}.

(** useState([]), useState(true), useState(''), useState(false) *)
Definition initial : State := mkState [] true false false.

Record View := mkView {
  state : State;
  effect_isFetching : bool;   (* [isFetching] of the render the effect ran in *)
  interval : bool;            (* the timer is set *)
  pending : list bool         (* parked calls of fetchConversations: isPolling *)
}.

Definition unmounted : View := mkView initial false false [].

(** [seen] is the [isFetching] of the render this function belongs to. *)
Definition fetchConversations (seen isPolling : bool) (v : View) : View :=
  if seen && isPolling then v
  else
    let st := state v in
    let st := mkState (conversations st) (loading st) (error st) true in
    let st := if negb isPolling
              then mkState (conversations st) true (error st) (isFetching st)
              else st in
    mkView st (effect_isFetching v) (interval v) (pending v ++ [isPolling]).

(** The rest of fetchConversations, once the request has settled. *)
Definition resume (isPolling : bool) (r : Response) (st : State) : State :=
  let st := match r with
            | Some data => mkState data (loading st) (error st) (isFetching st)
            | None =>
                if negb isPolling
                then mkState (conversations st) (loading st) true (isFetching st)
                else st
            end in
  let st := if negb isPolling
            then mkState (conversations st) false (error st) (isFetching st)
            else st in
  mkState (conversations st) (loading st) (error st) false.

Inductive Event :=
| Mount                              (* first render, then the effect *)
| Tick                               (* the 15000 ms timer fires *)
| Settle (i : nat) (r : Response)    (* the i-th parked request settles *)
| Unmount.

Definition step (v : View) (e : Event) : View :=
  match e with
  | Mount =>
      let seen := isFetching (state v) in
      fetchConversations seen false (mkView (state v) seen true (pending v))
  | Tick =>
      if interval v then fetchConversations (effect_isFetching v) true v else v
  | Settle i r =>
      match nth_error (pending v) i with
      | Some isPolling =>
          mkView (resume isPolling r (state v)) (effect_isFetching v)
                 (interval v) (remove_nth i (pending v))
      | None => v
      end
  | Unmount => mkView (state v) (effect_isFetching v) false (pending v)
  end.

Definition run (es : list Event) : View := fold_left step es unmounted.

(** Polling requests that have not settled yet. *)
Definition polls_in_flight (v : View) : nat :=
  List.length (filter (fun isPolling : bool => isPolling) (pending v)).

End ConversationList.

(** The component [Conversation] (the open thread).  Sending a message
    ([handleSendMessage]) takes no part in polling and is left out.  The
    effect depends on [conversationId] and [addNotification]; the
    notification hook is outside the sources and its callback is taken to
    keep its identity between renders, so the effect runs when the
    identifier changes ([Show]) and at no other render. *)
Module ConversationComponent.

Record State := mkState {
  messages : list ObjectId;
  loading : bool;
  error : bool;
  conversation : option ObjectId;
  isFetchingMessages : bool
}.

Definition initial : State := mkState [] true false None false.

Definition setMessages (m : list ObjectId) (st : State) : State :=
  mkState m (loading st) (error st) (conversation st) (isFetchingMessages st).
Definition setLoading (b : bool) (st : State) : State :=
  mkState (messages st) b (error st) (conversation st) (isFetchingMessages st).
Definition setError (b : bool) (st : State) : State :=
  mkState (messages st) (loading st) b (conversation st) (isFetchingMessages st).
Definition setConversation (c : option ObjectId) (st : State) : State :=
  mkState (messages st) (loading st) (error st) c (isFetchingMessages st).
Definition setIsFetchingMessages (b : bool) (st : State) : State :=
  mkState (messages st) (loading st) (error st) (conversation st) b.

(** Parked calls.  [seen] is the [isFetchingMessages] of the render the
    call belongs to; [initial_load] tells that fetchMessagesAndUpdateState
    was awaited by fetchInitialDataAndPoll, which goes on to its [finally]. *)
Inductive Task :=
| AwaitConversation (seen : bool) (id : ObjectId)
| AwaitMessages (initial_load : bool) (id : ObjectId)
| AwaitMarkRead (initial_load : bool) (id : ObjectId).

Record View := mkView {
  state : State;
  effect_isFetchingMessages : bool;
  interval : option ObjectId;     (* the timer and the identifier it polls *)
  pending : list Task
}.

Definition unmounted : View := mkView initial false None [].

Definition with_state (f : State -> State) (v : View) : View :=
  mkView (f (state v)) (effect_isFetchingMessages v) (interval v) (pending v).

Definition park (t : Task) (v : View) : View :=
  mkView (state v) (effect_isFetchingMessages v) (interval v) (pending v ++ [t]).

(** [finally] of fetchInitialDataAndPoll, reached when the awaited call returns. *)
Definition after (initial_load : bool) (v : View) : View :=
  if initial_load then with_state (setLoading false) v else v.

Definition fetchMessagesAndUpdateState (seen initial_load : bool)
    (currentConvId : option ObjectId) (v : View) : View :=
  match currentConvId with
  | None => after initial_load v
  | Some id =>
      if seen then after initial_load v
      else park (AwaitMessages initial_load id)
                (with_state (setIsFetchingMessages true) v)
  end.

Definition fetchInitialDataAndPoll (seen : bool) (conversationId : option ObjectId)
    (v : View) : View :=
  match conversationId with
  | None =>
      with_state (fun st => setError false (setMessages [] (setConversation None st))) v
  | Some id =>
      park (AwaitConversation seen id)
        (with_state (fun st => setMessages [] (setConversation None
                                 (setError false (setLoading true st)))) v)
  end.

Definition resume (t : Task) (r : Response) (v : View) : View :=
  match t, r with
  | AwaitConversation seen id, Some _ =>
      fetchMessagesAndUpdateState seen true (Some id)
        (with_state (setConversation (Some id)) v)
  | AwaitConversation _ _, None =>
      with_state (fun st => setLoading false (setMessages [] (setConversation None
                              (setError true st)))) v
  | AwaitMessages initial_load id, Some newMessages =>
      let v := with_state (setMessages newMessages) v in
      match newMessages with
      | _ :: _ => park (AwaitMarkRead initial_load id) v
      | [] => after initial_load (with_state (setIsFetchingMessages false) v)
      end
  | AwaitMessages initial_load _, None =>
      after initial_load (with_state (setIsFetchingMessages false) v)
  | AwaitMarkRead initial_load _, _ =>
      after initial_load (with_state (setIsFetchingMessages false) v)
  end.

Inductive Event :=
| Show (conversationId : option ObjectId)   (* mount, or the prop changes *)
| Tick                                      (* the 7000 ms timer fires *)
| Settle (i : nat) (r : Response)
| Unmount.

Definition step (v : View) (e : Event) : View :=
  match e with
  | Show conversationId =>
      let seen := isFetchingMessages (state v) in
      let v := fetchInitialDataAndPoll seen conversationId
                 (mkView (state v) seen None (pending v)) in
      mkView (state v) seen conversationId (pending v)
  | Tick =>
      match interval v with
      | Some id => fetchMessagesAndUpdateState (effect_isFetchingMessages v) false (Some id) v
      | None => v
      end
  | Settle i r =>
      match nth_error (pending v) i with
      | Some t =>
          resume t r (mkView (state v) (effect_isFetchingMessages v) (interval v)
                             (remove_nth i (pending v)))
      | None => v
      end
  | Unmount => mkView (state v) (effect_isFetchingMessages v) None (pending v)
  end.

Definition run (es : list Event) : View := fold_left step es unmounted.

Definition is_poll (t : Task) : bool :=
  match t with
  | AwaitMessages false _ | AwaitMarkRead false _ => true
  | _ => false
  end.

Definition polls_in_flight (v : View) : nat :=
  List.length (filter is_poll (pending v)).

End ConversationComponent.

(** ** Notions the properties are stated with *)

(** The unread count in the specification's words: the messages of the
    conversation that the viewer did not write and whose read-set lacks the
    viewer. *)
Fixpoint unread_count_spec (C U : ObjectId) (ms : list Message.doc) : nat :=
  match ms with
  | [] => 0
  | m :: ms' =>
      (if Nat.eq_dec (Message.conversationId m) C
       then if Nat.eq_dec (Message.senderId m) U then 0
            else if in_dec Nat.eq_dec U (Message.readBy m) then 0 else 1
       else 0)
      + unread_count_spec C U ms'
  end.

(** The unread count that a conversation-list response shows for [C]. *)
Definition listed_unreadCount (U C : ObjectId) (s : Store) : option nat :=
  match fst (getConversations U s) with
  | Sent l =>
      option_map unreadCount
        (List.find (fun o => Nat.eqb (Conversation._id (p_doc (conv o))) C) l)
  | Next _ => None
  end.

(** The documents behind a conversation-list response. *)
Definition listed_docs (U : ObjectId) (s : Store) : list Conversation.doc :=
  sort_by (fun a b => Conversation.updatedAt b <=? Conversation.updatedAt a)
    (Conversation.find (Conversation.q_participant U) (conversations s)).

(** What [markRead] is specified to do to one stored message. *)
Definition read_marked (C U : ObjectId) (m m' : Message.doc) : Prop :=
  if Nat.eq_dec (Message.conversationId m) C
  then if Nat.eq_dec (Message.senderId m) U then m' = m
       else if in_dec Nat.eq_dec U (Message.readBy m) then m' = m
            else m' = Message.mk (Message._id m) (Message.conversationId m)
                        (Message.senderId m) (Message.content m)
                        (Message.readBy m ++ [U]) (Message.read m)
                        (Message.createdAt m)
  else m' = m.





(** Requests, and the stores the handlers can produce from an empty store
    over any user directory. *)
Inductive Request :=
| GetConversations (user : ObjectId)
| GetConversation (user id : ObjectId)
| CreateConversation (now : nat) (user : ObjectId) (body : CreateBody)
| GetMessagesByConversation (user conversationId : ObjectId)
| MarkMessagesAsRead (user conversationId : ObjectId)
| SendMessage (now : nat) (user : ObjectId) (body : SendBody).

Definition handle (read_default : option bool) (r : Request) (s : Store) : Store :=
  match r with
  | GetConversations u => snd (getConversations u s)
  | GetConversation u i => snd (getConversation u i s)
  | CreateConversation now u b => snd (createConversation read_default now u b s)
  | GetMessagesByConversation u c => snd (getMessagesByConversation u c s)
  | MarkMessagesAsRead u c => snd (markMessagesAsRead u c s)
  | SendMessage now u b => snd (sendMessage read_default now u b s)
  end.

Inductive reachable (read_default : option bool) : Store -> Prop :=
| reach_empty (us : list ObjectId) : reachable read_default (mkStore us [] [] 0)
| reach_step (s : Store) (r : Request) :
    reachable read_default s -> reachable read_default (handle read_default r s).

(** Identifiers in use lie below the generator's counter. *)
Definition ids_below (s : Store) : Prop :=
  Forall (fun c => Conversation._id c < next_id s) (conversations s)
  /\ Forall (fun m => Message._id m < next_id s) (messages s).

(** A set last-message pointer resolves to a message of that conversation. *)
Definition pointer_ok (ms : Message.collection) (c : Conversation.doc) : Prop :=
  forall mid,
    Conversation.lastMessage c = Some mid ->
    exists m, Message.findById mid ms = Some m
              /\ Message.conversationId m = Conversation._id c.

Definition pointers_ok (s : Store) : Prop :=
  Forall (pointer_ok (messages s)) (conversations s).

(** Two conversation documents that differ in their timestamps only. *)
Definition same_fields (d c : Conversation.doc) : Prop :=
  Conversation._id c = Conversation._id d
  /\ Conversation.participants c = Conversation.participants d
  /\ Conversation.itemId c = Conversation.itemId d
  /\ Conversation.lastMessage c = Conversation.lastMessage d.




(** ** Sample data: users 1, 2 and 3, and conversation 10 between users 1
    and 2 with one message, 20, written by user 1. *)

Definition alice : ObjectId := 1.
Definition bob : ObjectId := 2.
Definition carol : ObjectId := 3.

Definition store0 (rd : option bool) : Store :=
  mkStore [alice; bob; carol]
          [Conversation.mk 10 [alice; bob] None (Some 20) 5 5]
          [Message.mk 20 10 alice "hi" [alice] rd 5]
          21.

(** A store with a second, later conversation of user 1 and messages that
    are not stored in creation order. *)
Definition store_two : Store :=
  mkStore [alice; bob; carol]
          [Conversation.mk 10 [alice; bob] None (Some 20) 5 5;
           Conversation.mk 11 [carol; alice] (Some 4) (Some 23) 6 9;
           Conversation.mk 12 [bob; carol] None None 7 7]
          [Message.mk 22 10 bob "late" [bob] None 8;
           Message.mk 20 10 alice "hi" [alice] None 5;
           Message.mk 23 11 carol "offer" [carol] None 9]
          24.

(** The store after user 1 has opened a conversation with user 2. *)
Definition store1 : Store :=
  handle None
    (CreateConversation 5 alice (mkCreateBody (Some bob) None (Some "hi"%string)))
    (mkStore [alice; bob; carol] [] [] 0).



(** The store that a first createConversation of user 1 leaves when it
    stops between [Message.create] and [conversation.save]: the message is
    stored, the conversation it names is not. *)
Definition store_dangling : Store :=
  mkStore [alice; bob; carol] [] [Message.mk 1 0 alice "hi" [alice] None 5] 2.

(** ** What one request can do to the store *)

(** The five ways in which a handler leaves the store: untouched; with the
    [read] flags of a thread set (getMessagesByConversation); with a reader
    added to a thread (markMessagesAsRead); with one message stored in an
    existing conversation (sendMessage, createConversation on a match); with a
    new conversation and its first message (createConversation). *)
Inductive transition (rd : option bool) (s : Store) : Store -> Prop :=
| tr_none : transition rd s s
| tr_flag (U C : ObjectId) :
    transition rd s
      (mkStore (users s) (conversations s)
         (map (fun d => if Message.q_read_false C U d then Message.u_read_true d else d)
              (messages s))
         (next_id s))
| tr_read (U C : ObjectId) (c : Conversation.doc) :
    Conversation.findById C (conversations s) = Some c ->
    includes U (Conversation.participants c) = true ->
    transition rd s
      (mkStore (users s) (conversations s)
         (map (fun d => if Message.q_unread C U d
                        then Message.u_addToSet_readBy U d else d) (messages s))
         (next_id s))
| tr_message (now : nat) (U : ObjectId) (T : string) (c : Conversation.doc) :
    In c (conversations s) ->
    includes U (Conversation.participants c) = true ->
    T <> EmptyString ->
    transition rd s
      (mkStore (users s)
         (Conversation.save now (Conversation.set_lastMessage (next_id s) c)
            (conversations s))
         (messages s ++ [Message.mk (next_id s) (Conversation._id c) U T [U] rd now])
         (S (next_id s)))
| tr_conversation (now : nat) (A B : ObjectId) (I : option ObjectId) (T : string) :
    Conversation.findOne (Conversation.q_pair_item A B I) (conversations s) = None ->
    includes B (users s) = true ->
    T <> EmptyString ->
    transition rd s
      (mkStore (users s)
         (conversations s
          ++ [Conversation.mk (next_id s) [A; B] I (Some (S (next_id s))) now now])
         (messages s ++ [Message.mk (S (next_id s)) (next_id s) A T [A] rd now])
         (S (S (next_id s)))).

(** A stored message keeps its identity and text and can only gain readers. *)
Definition msg_grows (m m' : Message.doc) : Prop :=
  Message._id m' = Message._id m
  /\ Message.conversationId m' = Message.conversationId m
  /\ Message.senderId m' = Message.senderId m
  /\ Message.content m' = Message.content m
  /\ Message.createdAt m' = Message.createdAt m
  /\ incl (Message.readBy m) (Message.readBy m').

(** A stored conversation keeps its identity, participants, item and
    creation time. *)
Definition conv_kept (c c' : Conversation.doc) : Prop :=
  Conversation._id c' = Conversation._id c
  /\ Conversation.participants c' = Conversation.participants c
  /\ Conversation.itemId c' = Conversation.itemId c
  /\ Conversation.createdAt c' = Conversation.createdAt c.

(** A stored message has been read by its writer and lists no reader
    twice; and if the conversation it names is stored, its writer and its
    readers are participants of that conversation. *)
Definition message_sound (cs : Conversation.collection) (m : Message.doc) : Prop :=
  In (Message.senderId m) (Message.readBy m)
  /\ NoDup (Message.readBy m)
  /\ forall c, In c cs ->
                Conversation._id c = Message.conversationId m ->
                In (Message.senderId m) (Conversation.participants c)
                /\ incl (Message.readBy m) (Conversation.participants c).

(** Identifiers (also the conversation identifiers that messages name) lie
    below the counter, no identifier is used twice, and every message is
    sound.  Nothing here asks that the conversation of a message is stored. *)
Definition store_sound (s : Store) : Prop :=
  ids_below s
  /\ Forall (fun m => Message.conversationId m < next_id s) (messages s)
  /\ NoDup (map Conversation._id (conversations s))
  /\ NoDup (map Message._id (messages s))
  /\ Forall (message_sound (conversations s)) (messages s).

(** ** What the components show *)

Inductive ListScreen :=
| ListSpinner
| ListError
| ListEmpty
| ListOf (conversations : list ObjectId).

(** The return statements of [ConversationList], in their order. *)
Definition render_ConversationList (st : ConversationList.State) : ListScreen :=
  if ConversationList.loading st
     && (List.length (ConversationList.conversations st) =? 0)
  then ListSpinner
  else if ConversationList.error st then ListError
  else if List.length (ConversationList.conversations st) =? 0 then ListEmpty
  else ListOf (ConversationList.conversations st).

Inductive ThreadScreen :=
| Placeholder
| ThreadSpinner
| ThreadError
| ThreadOf (messages : list ObjectId).

(** The return statements of [Conversation], in their order. *)
Definition render_Conversation (conversationId : option ObjectId)
    (st : ConversationComponent.State) : ThreadScreen :=
  match conversationId with
  | None => Placeholder
  | Some _ =>
      if ConversationComponent.loading st then ThreadSpinner
      else if ConversationComponent.error st then ThreadError
      else ThreadOf (ConversationComponent.messages st)
  end.

(** Events of a mounted component: timer firings and settling requests. *)
Definition list_running (e : ConversationList.Event) : bool :=
  match e with
  | ConversationList.Tick | ConversationList.Settle _ _ => true
  | _ => false
  end.

Definition thread_running (e : ConversationComponent.Event) : bool :=
  match e with
  | ConversationComponent.Tick | ConversationComponent.Settle _ _ => true
  | _ => false
  end.

(** A parked call of [Conversation] concerns thread [id]. *)
Definition fetches_for (id : ObjectId) (t : ConversationComponent.Task) : bool :=
  match t with
  | ConversationComponent.AwaitConversation _ _ => false
  | ConversationComponent.AwaitMessages _ i
  | ConversationComponent.AwaitMarkRead _ i => i =? id
  end.

(** The state of a list whose first load has settled: nothing but polls is
    pending and the spinner is gone. *)
Definition list_settled (err : bool) (v : ConversationList.View) : Prop :=
  ConversationList.error (ConversationList.state v) = err
  /\ ConversationList.loading (ConversationList.state v) = false
  /\ Forall (fun isPolling => isPolling = true) (ConversationList.pending v).

(** Events while the first load, the request at index 0, is still pending:
    timer firings and the settling of later requests. *)
Definition list_behind (e : ConversationList.Event) : bool :=
  match e with
  | ConversationList.Tick | ConversationList.Settle (S _) _ => true
  | _ => false
  end.

(** The state of a list whose first load is pending, possibly with polls
    behind it. *)
Definition list_waiting (v : ConversationList.View) : Prop :=
  ConversationList.error (ConversationList.state v) = false
  /\ ConversationList.loading (ConversationList.state v) = true
  /\ exists polls, ConversationList.pending v = false :: polls
                   /\ Forall (fun isPolling => isPolling = true) polls.

(** The same for an open thread, whose first request fetches the
    conversation details. *)
Definition thread_behind (e : ConversationComponent.Event) : bool :=
  match e with
  | ConversationComponent.Tick | ConversationComponent.Settle (S _) _ => true
  | _ => false
  end.

Definition is_details (t : ConversationComponent.Task) : bool :=
  match t with
  | ConversationComponent.AwaitConversation _ _ => true
  | _ => false
  end.

Definition thread_waiting (id : ObjectId) (v : ConversationComponent.View) : Prop :=
  ConversationComponent.error (ConversationComponent.state v) = false
  /\ exists seen rest,
       ConversationComponent.pending v
       = ConversationComponent.AwaitConversation seen id :: rest
       /\ Forall (fun t => is_details t = false) rest.

Definition thread_loaded (v : ConversationComponent.View) : Prop :=
  ConversationComponent.error (ConversationComponent.state v) = false
  /\ Forall (fun t => is_details t = false) (ConversationComponent.pending v).

(** A parked call that will not lead to a fetch for thread [b]: it concerns
    another thread, or it is the loading of [b]'s details by a render that
    saw [isFetchingMessages] set. *)
Definition frozen_task (b : ObjectId) (t : ConversationComponent.Task) : bool :=
  match t with
  | ConversationComponent.AwaitConversation seen i => negb (i =? b) || seen
  | ConversationComponent.AwaitMessages _ i
  | ConversationComponent.AwaitMarkRead _ i => negb (i =? b)
  end.

(** ** The message form of [Conversation]

    [handleSendMessage], the text input and the send button.  A text is a
    list of UTF-16 code units.  The input is disabled while [sending]; the
    button is disabled while [sending] or when the text trims to nothing.
    The handler belongs to the render in which the form was submitted, so its
    [messages] and [newMessage] are the state of that moment. *)
Module MessageForm.

(** WhiteSpace and LineTerminator of ECMAScript, which [trim] removes. *)
Definition whitespace (c : N) : bool :=
  existsb (N.eqb c)
    [9; 10; 11; 12; 13; 32; 160; 5760; 8192; 8193; 8194; 8195; 8196; 8197; 8198;
     8199; 8200; 8201; 8202; 8232; 8233; 8239; 8287; 12288; 65279]%N.

(** [!text.trim()] *)
Definition blank (text : list N) : bool := forallb whitespace text.

Record State := mkState {
  messages : list ObjectId;
  newMessage : list N;
  sending : bool;
  notifications : nat          (* calls of addNotification *)
}.

(** A call of handleSendMessage parked at [await messageService.sendMessage]. *)
Record Parked := mkParked {
  seen_messages : list ObjectId;
  content : list N
}.

Record View := mkView {
  state : State;
  pending : list Parked
}.

Definition handleSendMessage (v : View) : View :=
  let st := state v in
  if blank (newMessage st) then v
  else
    mkView (mkState (messages st) (newMessage st) true (notifications st))
           (pending v ++ [mkParked (messages st) (newMessage st)]).

(** The rest of handleSendMessage; a response carries the stored message. *)
Definition resume (p : Parked) (r : option ObjectId) (st : State) : State :=
  let st := match r with
            | Some m => mkState (seen_messages p ++ [m]) [] (sending st) (notifications st)
            | None => mkState (messages st) (newMessage st) (sending st)
                              (S (notifications st))
            end in
  mkState (messages st) (newMessage st) false (notifications st).

Inductive Event :=
| Type_ (text : list N)              (* onChange of the input *)
| Submit                               (* the form is submitted *)
| Poll (data : list ObjectId)          (* the poller replaces the list *)
| Settle (i : nat) (r : option ObjectId).

Definition step (v : View) (e : Event) : View :=
  match e with
  | Type_ text =>
      if sending (state v) then v
      else mkView (mkState (messages (state v)) text (sending (state v))
                           (notifications (state v)))
                  (pending v)
  | Submit => if sending (state v) then v else handleSendMessage v
  | Poll data =>
      mkView (mkState data (newMessage (state v)) (sending (state v))
                      (notifications (state v)))
             (pending v)
  | Settle i r =>
      match nth_error (pending v) i with
      | Some p => mkView (resume p r (state v)) (remove_nth i (pending v))
      | None => v
      end
  end.

(** useState([]), useState(''), useState(false) *)
Definition initial : View := mkView (mkState [] [] false 0) [].

Definition run (es : list Event) : View := fold_left step es initial.

End MessageForm.

(** * Properties *)

(** ** Lists, membership and sorting *)

Lemma includes_In (x : ObjectId) (l : list ObjectId) :
  includes x l = true <-> In x l.
Proof.
  unfold includes. rewrite existsb_exists. split.
  - intros [y [Hy He]]. apply Nat.eqb_eq in He. now subst.
  - intros H. exists x. split; [assumption | apply Nat.eqb_refl].
Qed.

Lemma includes_false (x : ObjectId) (l : list ObjectId) :
  includes x l = false <-> ~ In x l.
Proof.
  rewrite <- includes_In. destruct (includes x l); split; congruence.
Qed.

Lemma find_map {A B} (p : B -> bool) (f : A -> B) (l : list A) :
  List.find p (map f l) = option_map f (List.find (fun a => p (f a)) l).
Proof.
  induction l as [|a l IH]; simpl; [reflexivity|].
  destruct (p (f a)); [reflexivity | exact IH].
Qed.

Lemma find_present {A} (p : A -> bool) (l : list A) (x : A) :
  In x l -> p x = true -> exists y, List.find p l = Some y.
Proof.
  intros Hin Hp. destruct (List.find p l) as [y|] eqn:E.
  - now exists y.
  - rewrite (find_none p l E x Hin) in Hp. discriminate.
Qed.

Lemma find_app_found {A} (p : A -> bool) (l l' : list A) (x : A) :
  List.find p l = Some x -> List.find p (l ++ l') = Some x.
Proof.
  induction l as [|a l IH]; simpl; [discriminate|].
  destruct (p a); [trivial | exact IH].
Qed.

Lemma find_app_fresh {A} (p : A -> bool) (l l' : list A) :
  List.find p l = None -> List.find p (l ++ l') = List.find p l'.
Proof.
  induction l as [|a l IH]; simpl; [reflexivity|].
  destruct (p a); [discriminate | exact IH].
Qed.

Section SortFacts.
Context {A : Type} (le : A -> A -> bool).

Lemma insert_by_perm (x : A) (l : list A) :
  Permutation (x :: l) (insert_by le x l).
Proof.
  induction l as [|y l IH]; simpl; [reflexivity|].
  destruct (le x y); [reflexivity|].
  rewrite perm_swap. now apply perm_skip.
Qed.

Lemma sort_by_perm (l : list A) : Permutation l (sort_by le l).
Proof.
  induction l as [|x l IH]; simpl; [constructor|].
  rewrite <- insert_by_perm. now apply perm_skip.
Qed.

Hypothesis le_total : forall a b, le a b = false -> le b a = true.
Hypothesis le_trans : forall a b c, le a b = true -> le b c = true -> le a c = true.

Lemma insert_by_sorted (x : A) (l : list A) :
  StronglySorted (fun a b => le a b = true) l ->
  StronglySorted (fun a b => le a b = true) (insert_by le x l).
Proof.
  induction 1 as [|y l Hs IH Hall]; simpl.
  - repeat constructor.
  - destruct (le x y) eqn:E.
    + constructor; [now constructor|].
      constructor; [exact E|].
      eapply Forall_impl; [|exact Hall]. intros z Hz. now apply le_trans with y.
    + constructor; [exact IH|].
      eapply Permutation_Forall; [apply insert_by_perm|].
      constructor; [now apply le_total | exact Hall].
Qed.

Lemma sort_by_sorted (l : list A) :
  StronglySorted (fun a b => le a b = true) (sort_by le l).
Proof.
  induction l as [|x l IH]; simpl; [constructor|].
  now apply insert_by_sorted.
Qed.
End SortFacts.

(** ** Read marking *)

Lemma addToSet_absent (U : ObjectId) (l : list ObjectId) :
  ~ In U l -> addToSet U l = l ++ [U].
Proof.
  intros H. unfold addToSet. now rewrite (proj2 (includes_false U l) H).
Qed.

Lemma q_unread_spec (C U : ObjectId) (m : Message.doc) :
  Message.q_unread C U m = true <->
  Message.conversationId m = C /\ Message.senderId m <> U
  /\ ~ In U (Message.readBy m).
Proof.
  unfold Message.q_unread.
  rewrite !andb_true_iff, !negb_true_iff, Nat.eqb_eq, Nat.eqb_neq, includes_false.
  tauto.
Qed.

Lemma unread_step (C U : ObjectId) (m : Message.doc) :
  (if Nat.eq_dec (Message.conversationId m) C
   then if Nat.eq_dec (Message.senderId m) U then 0
        else if in_dec Nat.eq_dec U (Message.readBy m) then 0 else 1
   else 0) = if Message.q_unread C U m then 1 else 0.
Proof.
  destruct (Message.q_unread C U m) eqn:E.
  - apply q_unread_spec in E. destruct E as [E1 [E2 E3]].
    destruct (Nat.eq_dec _ C); [|contradiction].
    destruct (Nat.eq_dec _ U); [contradiction|].
    destruct (in_dec Nat.eq_dec U _); [contradiction | reflexivity].
  - destruct (Nat.eq_dec _ C) as [E1|]; [|reflexivity].
    destruct (Nat.eq_dec _ U) as [|E2]; [reflexivity|].
    destruct (in_dec Nat.eq_dec U _) as [|E3]; [reflexivity|].
    assert (H : Message.q_unread C U m = true) by (apply q_unread_spec; auto).
    congruence.
Qed.

Lemma countDocuments_unread (C U : ObjectId) (ms : list Message.doc) :
  Message.countDocuments (Message.q_unread C U) ms = unread_count_spec C U ms.
Proof.
  unfold Message.countDocuments.
  induction ms as [|m ms IH]; [reflexivity|].
  cbn [filter unread_count_spec]. rewrite unread_step.
  destruct (Message.q_unread C U m); simpl; now rewrite IH.
Qed.

Lemma unread_count_spec_app (C U : ObjectId) (ms ms' : list Message.doc) :
  unread_count_spec C U (ms ++ ms')
  = unread_count_spec C U ms + unread_count_spec C U ms'.
Proof.
  induction ms as [|m ms IH]; [reflexivity|].
  cbn [app unread_count_spec]. rewrite IH. lia.
Qed.

Lemma addToSet_changes (U : ObjectId) (m : Message.doc) :
  Message.q_unread (Message.conversationId m) U m = true ->
  Message.u_addToSet_readBy U m <> m.
Proof.
  intros Hq E. apply q_unread_spec in Hq. destruct Hq as [_ [_ Hn]].
  apply (f_equal Message.readBy) in E. simpl in E.
  rewrite (addToSet_absent _ _ Hn) in E.
  apply (f_equal (@List.length _)) in E. rewrite length_app in E. simpl in E. lia.
Qed.

Lemma q_unread_after (C U : ObjectId) (m : Message.doc) :
  Message.q_unread C U
    (if Message.q_unread C U m then Message.u_addToSet_readBy U m else m) = false.
Proof.
  destruct (Message.q_unread C U m) eqn:E; [|exact E].
  apply q_unread_spec in E. destruct E as [E1 [E2 E3]].
  destruct (Message.q_unread C U (Message.u_addToSet_readBy U m)) eqn:F; [|reflexivity].
  apply q_unread_spec in F. destruct F as [_ [_ F]]. exfalso. apply F.
  simpl. rewrite (addToSet_absent _ _ E3). apply in_or_app. right. now left.
Qed.

Lemma modified_unread (C U : ObjectId) (ms : list Message.doc) :
  List.length
    (filter (fun d => Message.q_unread C U d
                      && (if Message.eq_dec (Message.u_addToSet_readBy U d) d
                          then false else true)) ms)
  = unread_count_spec C U ms.
Proof.
  induction ms as [|m ms IH]; [reflexivity|].
  cbn [filter unread_count_spec]. rewrite unread_step.
  destruct (Message.q_unread C U m) eqn:E; cbn [andb].
  - destruct (Message.eq_dec (Message.u_addToSet_readBy U m) m) as [Ee|_].
    + exfalso. revert Ee. apply addToSet_changes.
      pose proof (proj1 (q_unread_spec C U m) E) as [E1 _]. now rewrite E1.
    + cbn [List.length]. now rewrite IH.
  - exact IH.
Qed.

Lemma marked_all (C U : ObjectId) (ms : list Message.doc) :
  Forall2 (read_marked C U) ms
    (map (fun d => if Message.q_unread C U d
                   then Message.u_addToSet_readBy U d else d) ms).
Proof.
  induction ms as [|m ms IH]; simpl; constructor; [|exact IH].
  unfold read_marked. pose proof (unread_step C U m) as Hs.
  destruct (Nat.eq_dec _ C) as [E1|E1].
  - destruct (Nat.eq_dec _ U) as [E2|E2].
    + destruct (Message.q_unread C U m); [discriminate | reflexivity].
    + destruct (in_dec Nat.eq_dec U _) as [E3|E3].
      * destruct (Message.q_unread C U m); [discriminate | reflexivity].
      * destruct (Message.q_unread C U m); [|discriminate].
        unfold Message.u_addToSet_readBy. now rewrite (addToSet_absent _ _ E3).
  - destruct (Message.q_unread C U m); [discriminate | reflexivity].
Qed.

Lemma unread_none_after (C U : ObjectId) (ms : list Message.doc) :
  unread_count_spec C U
    (map (fun d => if Message.q_unread C U d
                   then Message.u_addToSet_readBy U d else d) ms) = 0.
Proof.
  induction ms as [|m ms IH]; [reflexivity|].
  cbn [map unread_count_spec]. rewrite unread_step, q_unread_after, IH. reflexivity.
Qed.

Lemma remark_identity (C U : ObjectId) (ms : list Message.doc) :
  unread_count_spec C U ms = 0 ->
  map (fun d => if Message.q_unread C U d
                then Message.u_addToSet_readBy U d else d) ms = ms.
Proof.
  induction ms as [|m ms IH]; [reflexivity|].
  cbn [map unread_count_spec]. rewrite unread_step.
  destruct (Message.q_unread C U m); [discriminate|].
  simpl. intros H. now rewrite IH.
Qed.

(** What [markMessagesAsRead] computes for a participant. *)
Lemma markMessagesAsRead_participant (s : Store) (U C : ObjectId) (c : Conversation.doc) :
  Conversation.findById C (conversations s) = Some c ->
  includes U (Conversation.participants c) = true ->
  markMessagesAsRead U C s
  = (Sent (unread_count_spec C U (messages s)),
     mkStore (users s) (conversations s)
       (map (fun d => if Message.q_unread C U d
                      then Message.u_addToSet_readBy U d else d) (messages s))
       (next_id s)).
Proof.
  intros Hc HU.
  unfold markMessagesAsRead, bind, Conversation_findById, gets, Message_updateMany, ret.
  rewrite Hc, HU. simpl. now rewrite modified_unread.
Qed.

(** C3. For a participant U of conversation C, markRead(C, U) reports the
    number of messages of C written by someone else whose read-set lacked U,
    appends U to the read-set of exactly those messages and leaves every other
    message, every conversation and the user directory as they were; a second
    markRead(C, U) right after it changes nothing and reports zero. *)
Theorem markRead_adds_reader_C3 (s : Store) (U C : ObjectId) (c : Conversation.doc)
    (Hc : Conversation.findById C (conversations s) = Some c)
    (HU : includes U (Conversation.participants c) = true) :
  exists s',
    markMessagesAsRead U C s = (Sent (unread_count_spec C U (messages s)), s')
    /\ users s' = users s
    /\ conversations s' = conversations s
    /\ next_id s' = next_id s
    /\ Forall2 (read_marked C U) (messages s) (messages s')
    /\ markMessagesAsRead U C s' = (Sent 0, s').
Proof.
  eexists. split; [apply (markMessagesAsRead_participant s U C c Hc HU)|].
  simpl. repeat split; [apply marked_all|].
  rewrite (markMessagesAsRead_participant _ U C c); [|exact Hc | exact HU].
  simpl. rewrite unread_none_after.
  rewrite remark_identity by apply unread_none_after. reflexivity.
Qed.

(** ** The conversation list *)

Lemma updatedAt_desc_total (a b : Conversation.doc) :
  (Conversation.updatedAt b <=? Conversation.updatedAt a) = false ->
  (Conversation.updatedAt a <=? Conversation.updatedAt b) = true.
Proof. rewrite Nat.leb_gt, Nat.leb_le. lia. Qed.

Lemma updatedAt_desc_trans (a b c : Conversation.doc) :
  (Conversation.updatedAt b <=? Conversation.updatedAt a) = true ->
  (Conversation.updatedAt c <=? Conversation.updatedAt b) = true ->
  (Conversation.updatedAt c <=? Conversation.updatedAt a) = true.
Proof. rewrite !Nat.leb_le. lia. Qed.

Lemma createdAt_asc_total (a b : Message.doc) :
  (Message.createdAt a <=? Message.createdAt b) = false ->
  (Message.createdAt b <=? Message.createdAt a) = true.
Proof. rewrite Nat.leb_gt, Nat.leb_le. lia. Qed.

Lemma createdAt_asc_trans (a b c : Message.doc) :
  (Message.createdAt a <=? Message.createdAt b) = true ->
  (Message.createdAt b <=? Message.createdAt c) = true ->
  (Message.createdAt a <=? Message.createdAt c) = true.
Proof. rewrite !Nat.leb_le. lia. Qed.

Lemma getConversations_value (U : ObjectId) (s : Store) :
  getConversations U s
  = (Sent (map (fun d =>
                  mkConvObject
                    (mkPopulated d (populate_participants s d) (populate_lastMessage s d))
                    (Message.countDocuments (Message.q_unread (Conversation._id d) U)
                       (messages s)))
               (listed_docs U s)),
     s).
Proof.
  unfold getConversations, bind, gets, ret, listed_docs. simpl.
  now rewrite map_map.
Qed.

Lemma findById_id (C : ObjectId) (l : Conversation.collection) (c : Conversation.doc) :
  Conversation.findById C l = Some c -> In c l /\ Conversation._id c = C.
Proof.
  unfold Conversation.findById, Conversation.findOne. intros H.
  apply find_some in H. destruct H as [Hin He]. apply Nat.eqb_eq in He. now split.
Qed.

Lemma listed_unreadCount_participant (s : Store) (U C : ObjectId) (c : Conversation.doc) :
  Conversation.findById C (conversations s) = Some c ->
  includes U (Conversation.participants c) = true ->
  listed_unreadCount U C s = Some (unread_count_spec C U (messages s)).
Proof.
  intros Hc HU. unfold listed_unreadCount. rewrite getConversations_value. simpl.
  rewrite find_map. simpl.
  destruct (findById_id _ _ _ Hc) as [Hin Hid].
  assert (Hl : In c (listed_docs U s)).
  { unfold listed_docs. eapply Permutation_in; [apply sort_by_perm|].
    unfold Conversation.find. apply filter_In. now split. }
  destruct (find_present (fun a => Conversation._id a =? C) _ c Hl) as [d Hd].
  { now apply Nat.eqb_eq. }
  rewrite Hd. simpl. apply find_some in Hd. destruct Hd as [_ Hd].
  apply Nat.eqb_eq in Hd. rewrite Hd. now rewrite countDocuments_unread.
Qed.

(** ** Saving a conversation *)

Lemma findById_save (now : nat) (d c : Conversation.doc) (l : Conversation.collection) :
  Conversation.findById (Conversation._id d) l = Some c ->
  Conversation.findById (Conversation._id d) (Conversation.save now d l)
  = Some (Conversation.overwrite now d c).
Proof.
  intros Hc. unfold Conversation.save.
  destruct (findById_id _ _ _ Hc) as [Hin Hid].
  assert (He : existsb (fun e => Conversation._id e =? Conversation._id d) l = true).
  { apply existsb_exists. exists c. split; [exact Hin | now apply Nat.eqb_eq]. }
  rewrite He. clear He Hin Hid.
  unfold Conversation.findById, Conversation.findOne in *.
  induction l as [|e l IH]; simpl in *; [discriminate|].
  destruct (Conversation._id e =? Conversation._id d) eqn:E.
  - inversion Hc; subst. simpl. now rewrite Nat.eqb_refl.
  - rewrite E. now apply IH.
Qed.

Lemma truthy_text (text : string) : text <> EmptyString -> truthy (Some text) = Some text.
Proof. destruct text; [congruence | reflexivity]. Qed.

(** What [sendMessage] computes for a participant and a non-empty text. *)
Lemma sendMessage_participant (rd : option bool) (now : nat) (s : Store)
    (V C : ObjectId) (c : Conversation.doc) (text : string) :
  Conversation.findById C (conversations s) = Some c ->
  includes V (Conversation.participants c) = true ->
  text <> EmptyString ->
  sendMessage rd now V (mkSendBody (Some C) (Some text)) s
  = (Sent (Message.mk (next_id s) C V text [V] rd now),
     mkStore (users s)
       (Conversation.save now (Conversation.set_lastMessage (next_id s) c) (conversations s))
       (messages s ++ [Message.mk (next_id s) C V text [V] rd now])
       (S (next_id s))).
Proof.
  intros Hc HV Ht. unfold sendMessage. cbn [sb_conversationId sb_content].
  rewrite (truthy_text _ Ht).
  unfold bind, Conversation_findById, gets, Message_create, fresh_id, bind,
    Conversation_save, modify, ret, Message.create.
  rewrite Hc, HV. reflexivity.
Qed.

(** C2. For a participant U of conversation C, the unread count that
    listConversations(U) shows for C is the number of messages of C that U
    did not write and whose read-set lacks U; a message sent by another
    participant V raises that count by exactly one, and markRead(C, U) brings
    it to zero. *)
Theorem unreadCount_C2 (rd : option bool) (now : nat) (s : Store)
    (U V C : ObjectId) (c : Conversation.doc) (text : string)
    (Hc : Conversation.findById C (conversations s) = Some c)
    (HU : includes U (Conversation.participants c) = true)
    (HV : includes V (Conversation.participants c) = true)
    (HVU : V <> U)
    (Ht : text <> EmptyString) :
  listed_unreadCount U C s = Some (unread_count_spec C U (messages s))
  /\ (exists m s1,
        sendMessage rd now V (mkSendBody (Some C) (Some text)) s = (Sent m, s1)
        /\ listed_unreadCount U C s1 = Some (S (unread_count_spec C U (messages s))))
  /\ (exists n s2,
        markMessagesAsRead U C s = (Sent n, s2)
        /\ listed_unreadCount U C s2 = Some 0).
Proof.
  split; [now apply listed_unreadCount_participant with c|]. split.
  - do 2 eexists. split; [apply (sendMessage_participant rd now s V C c text Hc HV Ht)|].
    destruct (findById_id _ _ _ Hc) as [_ Hid].
    erewrite listed_unreadCount_participant.
    + cbn [messages]. rewrite unread_count_spec_app. cbn [unread_count_spec].
      rewrite unread_step.
      assert (Hq : Message.q_unread C U (Message.mk (next_id s) C V text [V] rd now) = true).
      { apply q_unread_spec. simpl. repeat split; [exact HVU|]. intros [E|[]]. congruence. }
      rewrite Hq. f_equal. lia.
    + cbn [conversations]. rewrite <- Hid at 1.
      change (Conversation._id c)
        with (Conversation._id (Conversation.set_lastMessage (next_id s) c)) at 1.
      apply findById_save. simpl. rewrite Hid. exact Hc.
    + exact HU.
  - do 2 eexists. split; [now apply markMessagesAsRead_participant with c|].
    erewrite listed_unreadCount_participant; [|exact Hc | exact HU].
    cbn [messages]. now rewrite unread_none_after.
Qed.

(** C2, at the sample store: user 2 has one unread message in conversation
    10; a message from user 1 makes it two, marking read makes it zero. *)
Lemma unreadCount_C2_witness :
  listed_unreadCount bob 10 (store0 None) = Some 1
  /\ (exists m s1,
        sendMessage None 9 alice (mkSendBody (Some 10) (Some "again"%string)) (store0 None)
        = (Sent m, s1)
        /\ listed_unreadCount bob 10 s1 = Some 2)
  /\ (exists n s2,
        markMessagesAsRead bob 10 (store0 None) = (Sent n, s2)
        /\ listed_unreadCount bob 10 s2 = Some 0).
Proof.
  apply (unreadCount_C2 None 9 (store0 None) bob alice 10
           (Conversation.mk 10 [alice; bob] None (Some 20) 5 5) "again"%string).
  - reflexivity.
  - reflexivity.
  - reflexivity.
  - unfold alice, bob. lia.
  - discriminate.
Defined.

(** C3, at the sample store. *)
Lemma markRead_adds_reader_C3_witness :
  exists s',
    markMessagesAsRead bob 10 (store0 None) = (Sent 1, s')
    /\ users s' = users (store0 None)
    /\ conversations s' = conversations (store0 None)
    /\ next_id s' = next_id (store0 None)
    /\ Forall2 (read_marked 10 bob) (messages (store0 None)) (messages s')
    /\ markMessagesAsRead bob 10 s' = (Sent 0, s').
Proof.
  apply (markRead_adds_reader_C3 (store0 None) bob 10
           (Conversation.mk 10 [alice; bob] None (Some 20) 5 5)).
  - reflexivity.
  - reflexivity.
Defined.

(** ** Listing order *)

Lemma StronglySorted_weaken {A} (R R' : A -> A -> Prop) (l : list A) :
  (forall a b, R a b -> R' a b) -> StronglySorted R l -> StronglySorted R' l.
Proof.
  intros HR. induction 1 as [|x l Hs IH Hall]; constructor; [exact IH|].
  eapply Forall_impl; [|exact Hall]. intros b. apply HR.
Qed.

Lemma getMessagesByConversation_participant (s : Store) (U C : ObjectId)
    (c : Conversation.doc) :
  Conversation.findById C (conversations s) = Some c ->
  includes U (Conversation.participants c) = true ->
  getMessagesByConversation U C s
  = (Sent (sort_by (fun a b => Message.createdAt a <=? Message.createdAt b)
             (Message.find (fun m => Message.conversationId m =? C) (messages s))),
     mkStore (users s) (conversations s)
       (map (fun d => if Message.q_read_false C U d then Message.u_read_true d else d)
            (messages s))
       (next_id s)).
Proof.
  intros Hc HU.
  unfold getMessagesByConversation, bind, Conversation_findById, gets,
    Message_updateMany, ret.
  rewrite Hc, HU. reflexivity.
Qed.

(** C8. For every user U, listConversations(U) answers with exactly the
    conversations that list U as a participant, latest update first (with
    nothing, for a user who takes part in none); and for every conversation
    C that lists U as a participant, listMessages(C, U) answers with exactly
    the messages of C, earliest creation first. *)
Theorem listing_order_C8 (s : Store) (U : ObjectId) :
  (exists l,
      getConversations U s = (Sent l, s)
      /\ Permutation (map (fun o => p_doc (conv o)) l)
           (filter (fun d => includes U (Conversation.participants d)) (conversations s))
      /\ (forall d, In d (map (fun o => p_doc (conv o)) l)
                    <-> In d (conversations s) /\ In U (Conversation.participants d))
      /\ StronglySorted
           (fun a b => Conversation.updatedAt b <= Conversation.updatedAt a)
           (map (fun o => p_doc (conv o)) l))
  /\ (forall (C : ObjectId) (c : Conversation.doc),
        Conversation.findById C (conversations s) = Some c ->
        includes U (Conversation.participants c) = true ->
        exists l s',
          getMessagesByConversation U C s = (Sent l, s')
          /\ Permutation l
               (filter (fun m => Message.conversationId m =? C) (messages s))
          /\ (forall m, In m l <-> In m (messages s) /\ Message.conversationId m = C)
          /\ StronglySorted (fun a b => Message.createdAt a <= Message.createdAt b) l).
Proof.
  split.
  - eexists. split; [apply getConversations_value|].
    rewrite map_map. cbn [conv p_doc]. rewrite map_id.
    assert (HP : Permutation (listed_docs U s)
                   (filter (fun d => includes U (Conversation.participants d))
                      (conversations s))).
    { symmetry. apply sort_by_perm. }
    split; [exact HP|]. split.
    + intros d. split.
      * intros Hd. apply (Permutation_in _ HP) in Hd. apply filter_In in Hd.
        destruct Hd as [Hd Hi]. split; [exact Hd | now apply includes_In].
      * intros [Hd Hi]. apply (Permutation_in _ (Permutation_sym HP)).
        apply filter_In. split; [exact Hd | now apply includes_In].
    + eapply StronglySorted_weaken; [|apply sort_by_sorted].
      * intros a b H. now apply Nat.leb_le in H.
      * intros a b. apply updatedAt_desc_total.
      * intros a b d. apply updatedAt_desc_trans.
  - intros C c Hc HU.
    do 2 eexists. split; [apply (getMessagesByConversation_participant s U C c Hc HU)|].
    assert (HP : Permutation
                   (sort_by (fun a b => Message.createdAt a <=? Message.createdAt b)
                      (Message.find (fun m => Message.conversationId m =? C) (messages s)))
                   (filter (fun m => Message.conversationId m =? C) (messages s))).
    { symmetry. apply sort_by_perm. }
    split; [exact HP|]. split.
    + intros m. split.
      * intros Hm. apply (Permutation_in _ HP) in Hm. apply filter_In in Hm.
        destruct Hm as [Hm Hi]. split; [exact Hm | now apply Nat.eqb_eq].
      * intros [Hm Hi]. apply (Permutation_in _ (Permutation_sym HP)).
        apply filter_In. split; [exact Hm | now apply Nat.eqb_eq].
    + eapply StronglySorted_weaken; [|apply sort_by_sorted].
      * intros a b H. now apply Nat.leb_le in H.
      * intros a b. apply createdAt_asc_total.
      * intros a b d. apply createdAt_asc_trans.
Qed.

(** C8, at a store with two conversations of user 1 and three messages
    that were stored out of creation order: the list of user 1, the thread
    10 as user 1 sees it, and the list of a user who takes part in no
    conversation. *)
Lemma listing_order_C8_witness :
  (exists l,
      getConversations alice store_two = (Sent l, store_two)
      /\ Permutation (map (fun o => p_doc (conv o)) l)
           (filter (fun d => includes alice (Conversation.participants d))
              (conversations store_two))
      /\ (forall d, In d (map (fun o => p_doc (conv o)) l)
                    <-> In d (conversations store_two)
                        /\ In alice (Conversation.participants d))
      /\ StronglySorted
           (fun a b => Conversation.updatedAt b <= Conversation.updatedAt a)
           (map (fun o => p_doc (conv o)) l))
  /\ (exists l s',
        getMessagesByConversation alice 10 store_two = (Sent l, s')
        /\ Permutation l
             (filter (fun m => Message.conversationId m =? 10) (messages store_two))
        /\ (forall m, In m l <-> In m (messages store_two) /\ Message.conversationId m = 10)
        /\ StronglySorted (fun a b => Message.createdAt a <= Message.createdAt b) l)
  /\ (exists l,
        getConversations 9 store_two = (Sent l, store_two)
        /\ Permutation (map (fun o => p_doc (conv o)) l) []
        /\ (forall d, In d (map (fun o => p_doc (conv o)) l)
                      <-> In d (conversations store_two)
                          /\ In 9 (Conversation.participants d))
        /\ StronglySorted
             (fun a b => Conversation.updatedAt b <= Conversation.updatedAt a)
             (map (fun o => p_doc (conv o)) l)).
Proof.
  split; [exact (proj1 (listing_order_C8 store_two alice))|].
  split.
  - apply (proj2 (listing_order_C8 store_two alice) 10
             (Conversation.mk 10 [alice; bob] None (Some 20) 5 5)).
    + reflexivity.
    + reflexivity.
  - exact (proj1 (listing_order_C8 store_two 9)).
Defined.

(** ** Opening a thread does not touch the read-sets *)

Lemma getMessagesByConversation_keeps_readBy (s : Store) (U C : ObjectId) :
  map Message.readBy (messages (snd (getMessagesByConversation U C s)))
  = map Message.readBy (messages s)
  /\ conversations (snd (getMessagesByConversation U C s)) = conversations s.
Proof.
  unfold getMessagesByConversation, bind, Conversation_findById, gets,
    Message_updateMany, ret, next.
  destruct (Conversation.findById C (conversations s)) as [c|]; simpl; [|now split].
  destruct (includes U (Conversation.participants c)); simpl; [|now split].
  split; [|reflexivity].
  rewrite map_map. apply map_ext. intros m.
  now destruct (Message.q_read_false C U m).
Qed.

(** C1, evaluated. User 2 takes part in conversation 10, whose one message
    was written by user 1 and read by user 1 only.  Whatever the stored
    [read] flag is, listMessages(10, 2) returns that message and leaves its
    read-set as it was: the list still shows one unread message for user 2,
    and a markRead(10, 2) right after it changes the store and reports one
    message affected. *)
Theorem listMessages_leaves_readBy_C1 :
  forall rd : option bool,
    exists l s1,
      getMessagesByConversation bob 10 (store0 rd) = (Sent l, s1)
      /\ map Message.readBy (messages s1) = [[alice]]
      /\ listed_unreadCount bob 10 s1 = Some 1
      /\ exists s2, markMessagesAsRead bob 10 s1 = (Sent 1, s2)
                    /\ map Message.readBy (messages s2) = [[alice; bob]].
Proof.
  intros [[|]|]; do 2 eexists;
    (split; [reflexivity|]); (split; [reflexivity|]); (split; [reflexivity|]);
    eexists; split; reflexivity.
Qed.

(** ** Sending a message *)

Lemma truthy_inv (o : option string) (t : string) :
  truthy o = Some t -> o = Some t /\ t <> EmptyString.
Proof.
  destruct o as [[|a r]|]; simpl; intros H; inversion H; subst.
  split; [reflexivity | discriminate].
Qed.

Lemma save_existing (now : nat) (d c : Conversation.doc) (l : Conversation.collection) :
  Conversation.findById (Conversation._id d) l = Some c ->
  Conversation.save now d l
  = map (fun e => if Conversation._id e =? Conversation._id d
                  then Conversation.overwrite now d e else e) l.
Proof.
  intros Hc. unfold Conversation.save.
  destruct (findById_id _ _ _ Hc) as [Hin Hid].
  assert (He : existsb (fun e => Conversation._id e =? Conversation._id d) l = true).
  { apply existsb_exists. exists c. split; [exact Hin | now apply Nat.eqb_eq]. }
  now rewrite He.
Qed.

Lemma save_ids (now : nat) (d c : Conversation.doc) (l : Conversation.collection) :
  Conversation.findById (Conversation._id d) l = Some c ->
  map Conversation._id (Conversation.save now d l) = map Conversation._id l.
Proof.
  intros Hc. rewrite (save_existing now d c l Hc). rewrite map_map.
  apply map_ext. intros e.
  destruct (Conversation._id e =? Conversation._id d) eqn:E; [|reflexivity].
  apply Nat.eqb_eq in E. simpl. congruence.
Qed.

(** C6. sendMessage answers BadRequest when the text is empty or absent;
    otherwise NotFound when the conversation does not exist; otherwise
    Forbidden when the sender is not a participant; in each of these cases
    the store is what it was.  Otherwise it stores exactly one new message, at
    the end, written by the sender with read-set {sender}, and the
    conversation now points to that message and carries the request's time
    as its update time; its other fields and every other conversation are
    as before. *)
Theorem sendMessage_C6 (rd : option bool) (now : nat) (U C : ObjectId)
    (content : option string) (s : Store) :
  match truthy content, Conversation.findById C (conversations s) with
  | None, _ =>
      exists e, sendMessage rd now U (mkSendBody (Some C) content) s = (Next e, s)
                /\ BadRequest e
  | Some _, None =>
      exists e, sendMessage rd now U (mkSendBody (Some C) content) s = (Next e, s)
                /\ NotFound e
  | Some text, Some c =>
      if includes U (Conversation.participants c)
      then
        exists m s',
          sendMessage rd now U (mkSendBody (Some C) content) s = (Sent m, s')
          /\ messages s' = messages s ++ [m]
          /\ Message.readBy m = [U]
          /\ Message.senderId m = U
          /\ Message.conversationId m = C
          /\ Message.content m = text
          /\ Message.createdAt m = now
          /\ users s' = users s
          /\ Conversation.findById C (conversations s')
             = Some (Conversation.mk C (Conversation.participants c)
                       (Conversation.itemId c) (Some (Message._id m))
                       (Conversation.createdAt c) now)
          /\ map Conversation._id (conversations s') = map Conversation._id (conversations s)
          /\ (forall d, Conversation._id d <> C ->
                        (In d (conversations s') <-> In d (conversations s)))
      else
        exists e, sendMessage rd now U (mkSendBody (Some C) content) s = (Next e, s)
                  /\ Forbidden e
  end.
Proof.
  destruct (truthy content) as [text|] eqn:Et.
  - destruct (truthy_inv _ _ Et) as [-> Hne].
    destruct (Conversation.findById C (conversations s)) as [c|] eqn:Hc.
    + destruct (includes U (Conversation.participants c)) eqn:HU.
      * destruct (findById_id _ _ _ Hc) as [Hin Hid].
        assert (Hd : Conversation.findById
                       (Conversation._id (Conversation.set_lastMessage (next_id s) c))
                       (conversations s) = Some c)
          by (simpl; now rewrite Hid).
        do 2 eexists.
        split; [apply (sendMessage_participant rd now s U C c text Hc HU Hne)|].
        cbn [messages users conversations Message.readBy Message.senderId
             Message.conversationId Message.content Message.createdAt Message._id].
        repeat (split; [reflexivity|]).
        split; [|split].
        -- rewrite <- Hid at 1.
           change (Conversation._id c)
             with (Conversation._id (Conversation.set_lastMessage (next_id s) c)) at 1.
           rewrite (findById_save now _ c _ Hd).
           unfold Conversation.overwrite. simpl. now rewrite Hid.
        -- apply (save_ids now _ c _ Hd).
        -- intros d Hdc. rewrite (save_existing now _ c _ Hd).
           cbn [Conversation.set_lastMessage Conversation._id]. rewrite Hid.
           rewrite in_map_iff. split.
           ++ intros [e [He Hine]].
              destruct (Conversation._id e =? C) eqn:E.
              ** subst d. simpl in Hdc. congruence.
              ** now subst d.
           ++ intros Hind. exists d. split; [|exact Hind].
              apply Nat.eqb_neq in Hdc. now rewrite Hdc.
      * eexists. split.
        { unfold sendMessage. cbn [sb_conversationId sb_content]. rewrite Et.
          unfold bind, Conversation_findById, gets, next. rewrite Hc, HU. reflexivity. }
        left. reflexivity.
    + eexists. split.
      { unfold sendMessage. cbn [sb_conversationId sb_content]. rewrite Et.
        unfold bind, Conversation_findById, gets, next. rewrite Hc. reflexivity. }
      reflexivity.
  - eexists. split.
    { unfold sendMessage. cbn [sb_conversationId sb_content]. rewrite Et. reflexivity. }
    reflexivity.
Qed.

(** ** Errors for requests on a conversation *)

(** C5 as stated fails: no user takes part in conversation 7 of the sample
    store, for it does not exist, and each of the four operations answers
    with status 404, which is not an authorization error. *)
Lemma missing_conversation_not_Forbidden_C5 :
  (forall c, Conversation.findById 7 (conversations (store0 None)) = Some c ->
             includes carol (Conversation.participants c) = false)
  /\ ~ (exists e, fst (getConversation carol 7 (store0 None)) = Next e /\ Forbidden e)
  /\ ~ (exists e, fst (getMessagesByConversation carol 7 (store0 None)) = Next e
                  /\ Forbidden e)
  /\ ~ (exists e, fst (sendMessage None 9 carol (mkSendBody (Some 7) (Some "x"%string))
                         (store0 None)) = Next e /\ Forbidden e)
  /\ ~ (exists e, fst (markMessagesAsRead carol 7 (store0 None)) = Next e /\ Forbidden e).
Proof.
  split; [intros c H; discriminate H|].
  repeat split; intros [e [H [F|F]]]; vm_compute in H; inversion H; subst;
    discriminate F.
Qed.

(** C5, amended. Let U be no participant of C and the text non-empty.  If C
    exists, getConversation, listMessages and sendMessage answer with status
    401 and markRead with status 403, all authorization errors; if C does not
    exist, all four answer NotFound.  The store is unchanged either way. *)
Theorem non_participant_C5 (rd : option bool) (now : nat) (s : Store) (U C : ObjectId)
    (text : string)
    (Hnp : forall c, Conversation.findById C (conversations s) = Some c ->
                     includes U (Conversation.participants c) = false)
    (Ht : text <> EmptyString) :
  exists e1 e2 e3 e4,
    getConversation U C s = (Next e1, s)
    /\ getMessagesByConversation U C s = (Next e2, s)
    /\ sendMessage rd now U (mkSendBody (Some C) (Some text)) s = (Next e3, s)
    /\ markMessagesAsRead U C s = (Next e4, s)
    /\ match Conversation.findById C (conversations s) with
       | Some _ => statusCode e1 = 401 /\ statusCode e2 = 401
                   /\ statusCode e3 = 401 /\ statusCode e4 = 403
                   /\ Forbidden e1 /\ Forbidden e2 /\ Forbidden e3 /\ Forbidden e4
       | None => NotFound e1 /\ NotFound e2 /\ NotFound e3 /\ NotFound e4
       end.
Proof.
  unfold getConversation, getMessagesByConversation, sendMessage, markMessagesAsRead.
  cbn [sb_conversationId sb_content]. rewrite (truthy_text _ Ht).
  unfold bind, Conversation_findById, gets, next.
  destruct (Conversation.findById C (conversations s)) as [c|] eqn:Hc.
  - rewrite (Hnp c eq_refl). cbn [option_map p_participants negb].
    assert (Hp : existsb (fun p => p =? U) (populate_participants s c) = false).
    { apply not_true_is_false. intros H. apply existsb_exists in H.
      destruct H as [p [Hp He]]. apply Nat.eqb_eq in He. subst p.
      unfold populate_participants in Hp. apply filter_In in Hp.
      destruct Hp as [Hp _]. apply includes_In in Hp.
      rewrite (Hnp c eq_refl) in Hp. discriminate. }
    rewrite Hp. cbn [negb].
    do 4 eexists. repeat (split; [reflexivity|]).
    unfold Forbidden. simpl. tauto.
  - cbn [option_map]. do 4 eexists. repeat (split; [reflexivity|]).
    unfold NotFound. simpl. tauto.
Qed.

(** C5 amended, for user 3 and conversation 10 of the sample store. *)
Lemma non_participant_C5_witness :
  exists e1 e2 e3 e4,
    getConversation carol 10 (store0 None) = (Next e1, store0 None)
    /\ getMessagesByConversation carol 10 (store0 None) = (Next e2, store0 None)
    /\ sendMessage None 9 carol (mkSendBody (Some 10) (Some "x"%string)) (store0 None)
       = (Next e3, store0 None)
    /\ markMessagesAsRead carol 10 (store0 None) = (Next e4, store0 None)
    /\ match Conversation.findById 10 (conversations (store0 None)) with
       | Some _ => statusCode e1 = 401 /\ statusCode e2 = 401
                   /\ statusCode e3 = 401 /\ statusCode e4 = 403
                   /\ Forbidden e1 /\ Forbidden e2 /\ Forbidden e3 /\ Forbidden e4
       | None => NotFound e1 /\ NotFound e2 /\ NotFound e3 /\ NotFound e4
       end.
Proof.
  apply (non_participant_C5 None 9 (store0 None) carol 10 "x"%string).
  - intros c H. vm_compute in H. inversion H. reflexivity.
  - discriminate.
Defined.

(** ** Creating a conversation *)

Lemma q_pair_item_fields (A B : ObjectId) (I : option ObjectId) (d e : Conversation.doc) :
  Conversation.participants d = Conversation.participants e ->
  Conversation.itemId d = Conversation.itemId e ->
  Conversation.q_pair_item A B I d = Conversation.q_pair_item A B I e.
Proof. unfold Conversation.q_pair_item. now intros -> ->. Qed.



(** The two outcomes of a well-formed request: the lookup finds [c] ... *)
Lemma createConversation_existing (rd : option bool) (now : nat) (A B : ObjectId)
    (I : option ObjectId) (T : string) (s : Store) (c : Conversation.doc) :
  includes B (users s) = true ->
  T <> EmptyString ->
  Conversation.findOne (Conversation.q_pair_item A B I) (conversations s) = Some c ->
  createConversation rd now A (mkCreateBody (Some B) I (Some T)) s
  = (Sent (populated (Conversation._id c)
             (mkStore (users s)
                (Conversation.save now (Conversation.set_lastMessage (next_id s) c)
                   (conversations s))
                (messages s ++ [Message.mk (next_id s) (Conversation._id c) A T [A] rd now])
                (S (next_id s))),
           Message.mk (next_id s) (Conversation._id c) A T [A] rd now),
     mkStore (users s)
       (Conversation.save now (Conversation.set_lastMessage (next_id s) c) (conversations s))
       (messages s ++ [Message.mk (next_id s) (Conversation._id c) A T [A] rd now])
       (S (next_id s))).
Proof.
  intros HB HT Hf. unfold createConversation.
  cbn [cb_receiverId cb_initialMessage cb_itemId]. rewrite (truthy_text _ HT).
  unfold bind, gets, User_findById, Message_create, fresh_id, bind,
    Conversation_save, modify, ret, Message.create.
  cbv beta. rewrite HB. cbv beta iota. cbn [negb]. rewrite Hf. reflexivity.
Qed.

(** ... or finds nothing and a conversation is made. *)
Lemma createConversation_new (rd : option bool) (now : nat) (A B : ObjectId)
    (I : option ObjectId) (T : string) (s : Store) :
  includes B (users s) = true ->
  T <> EmptyString ->
  Conversation.findOne (Conversation.q_pair_item A B I) (conversations s) = None ->
  createConversation rd now A (mkCreateBody (Some B) I (Some T)) s
  = (Sent (populated (next_id s)
             (mkStore (users s)
                (Conversation.save now
                   (Conversation.mk (next_id s) [A; B] I (Some (S (next_id s))) 0 0)
                   (Conversation.save now
                      (Conversation.mk (next_id s) [A; B] I (Some (S (next_id s))) 0 0)
                      (conversations s)))
                (messages s
                 ++ [Message.mk (S (next_id s)) (next_id s) A T [A] rd now])
                (S (S (next_id s)))),
           Message.mk (S (next_id s)) (next_id s) A T [A] rd now),
     mkStore (users s)
       (Conversation.save now
          (Conversation.mk (next_id s) [A; B] I (Some (S (next_id s))) 0 0)
          (Conversation.save now
             (Conversation.mk (next_id s) [A; B] I (Some (S (next_id s))) 0 0)
             (conversations s)))
       (messages s ++ [Message.mk (S (next_id s)) (next_id s) A T [A] rd now])
       (S (S (next_id s)))).
Proof.
  intros HB HT Hf. unfold createConversation.
  cbn [cb_receiverId cb_initialMessage cb_itemId]. rewrite (truthy_text _ HT).
  unfold bind, gets, User_findById, Message_create, fresh_id, bind,
    Conversation_save, modify, ret, Message.create.
  cbv beta. rewrite HB. cbv beta iota. cbn [negb]. rewrite Hf. reflexivity.
Qed.

(** A request that is answered is well-formed. *)
Lemma createConversation_Sent (rd : option bool) (now : nat) (A : ObjectId)
    (body : CreateBody) (s s' : Store) (x : option Populated * Message.doc) :
  createConversation rd now A body s = (Sent x, s') ->
  exists B T, body = mkCreateBody (Some B) (cb_itemId body) (Some T)
              /\ T <> EmptyString /\ includes B (users s) = true.
Proof.
  destruct body as [[B|] I T]; unfold createConversation;
    cbn [cb_receiverId cb_initialMessage cb_itemId].
  - destruct (truthy T) as [t|] eqn:Et; [|discriminate].
    destruct (truthy_inv _ _ Et) as [-> Hne].
    unfold bind at 1. unfold gets at 1. unfold User_findById.
    destruct (includes B (users s)) eqn:HB; [|discriminate].
    intros _. exists B, t. now repeat split.
  - destruct (truthy T); discriminate.
Qed.

Lemma sendMessage_Sent (rd : option bool) (now : nat) (U : ObjectId)
    (body : SendBody) (s s' : Store) (m : Message.doc) :
  sendMessage rd now U body s = (Sent m, s') ->
  exists C T c, body = mkSendBody (Some C) (Some T)
                /\ T <> EmptyString
                /\ Conversation.findById C (conversations s) = Some c
                /\ includes U (Conversation.participants c) = true.
Proof.
  destruct body as [[C|] T]; unfold sendMessage; cbn [sb_conversationId sb_content].
  - destruct (truthy T) as [t|] eqn:Et; [|discriminate].
    destruct (truthy_inv _ _ Et) as [-> Hne].
    unfold bind at 1. unfold Conversation_findById, gets.
    destruct (Conversation.findById C (conversations s)) as [c|] eqn:Hc; [|discriminate].
    destruct (includes U (Conversation.participants c)) eqn:HU; [|discriminate].
    intros _. exists C, t, c. now repeat split.
  - destruct (truthy T); discriminate.
Qed.

(** C7. A message made by createConversation or by sendMessage is stored
    as the newest message, is written by the requesting user, and has its
    writer in its read-set (the read-set is exactly the writer). *)
Theorem sender_in_readBy_C7 (rd : option bool) (now : nat) (U : ObjectId)
    (s s' : Store) (m : Message.doc)
    (H : (exists body pc, createConversation rd now U body s = (Sent (pc, m), s'))
         \/ (exists body, sendMessage rd now U body s = (Sent m, s'))) :
  messages s' = messages s ++ [m]
  /\ Message.senderId m = U
  /\ Message.readBy m = [Message.senderId m]
  /\ In (Message.senderId m) (Message.readBy m).
Proof.
  assert (G : messages s' = messages s ++ [m]
              /\ Message.senderId m = U /\ Message.readBy m = [U]).
  { destruct H as [[body [pc H]]|[body H]].
    - destruct (createConversation_Sent _ _ _ _ _ _ _ H) as [B [T [Hb [HT HB]]]].
      rewrite Hb in H.
      destruct (Conversation.findOne
                  (Conversation.q_pair_item U B (cb_itemId body)) (conversations s))
        as [c|] eqn:Hf.
      + rewrite (createConversation_existing rd now U B _ T s c HB HT Hf) in H.
        inversion H; subst. now repeat split.
      + rewrite (createConversation_new rd now U B _ T s HB HT Hf) in H.
        inversion H; subst. now repeat split.
    - destruct (sendMessage_Sent _ _ _ _ _ _ _ H) as [C [T [c [Hb [HT [Hc HU]]]]]].
      rewrite Hb in H.
      rewrite (sendMessage_participant rd now s U C c T Hc HU HT) in H.
      inversion H; subst. now repeat split. }
  destruct G as [G1 [G2 G3]]. repeat split; try assumption.
  - now rewrite G3, G2.
  - rewrite G3, G2. now left.
Qed.

(** C7, for a first message of user 1 to user 3 at the sample store. *)
Lemma sender_in_readBy_C7_witness :
  messages (snd (createConversation None 7 alice
                   (mkCreateBody (Some carol) (Some 4) (Some "yo"%string)) (store0 None)))
  = messages (store0 None) ++ [Message.mk 22 21 alice "yo" [alice] None 7]
  /\ Message.senderId (Message.mk 22 21 alice "yo" [alice] None 7) = alice
  /\ Message.readBy (Message.mk 22 21 alice "yo" [alice] None 7)
     = [Message.senderId (Message.mk 22 21 alice "yo" [alice] None 7)]
  /\ In (Message.senderId (Message.mk 22 21 alice "yo" [alice] None 7))
        (Message.readBy (Message.mk 22 21 alice "yo" [alice] None 7)).
Proof.
  apply (sender_in_readBy_C7 None 7 alice (store0 None)).
  left. exists (mkCreateBody (Some carol) (Some 4) (Some "yo"%string)).
  eexists. cbv. reflexivity.
Defined.

(** ** Stores the handlers produce *)

Lemma in_save (now : nat) (d c : Conversation.doc) (l : Conversation.collection) :
  In c (Conversation.save now d l) -> In c l \/ same_fields d c.
Proof.
  unfold Conversation.save.
  destruct (existsb (fun e => Conversation._id e =? Conversation._id d) l).
  - rewrite in_map_iff. intros [e [He Hin]].
    destruct (Conversation._id e =? Conversation._id d).
    + right. subst c. now repeat split.
    + left. now subst c.
  - rewrite in_app_iff. intros [Hin|[He|[]]]; [now left|].
    right. subst c. now repeat split.
Qed.

Lemma Forall_save (P : Conversation.doc -> Prop) (now : nat) (d : Conversation.doc)
    (l : Conversation.collection) :
  Forall P l -> (forall c, same_fields d c -> P c) -> Forall P (Conversation.save now d l).
Proof.
  intros Hl Hd. apply Forall_forall. intros c Hc.
  destruct (in_save _ _ _ _ Hc) as [Hin|Hs].
  - now apply (proj1 (Forall_forall P l) Hl).
  - now apply Hd.
Qed.

Lemma save_fresh (now : nat) (d : Conversation.doc) (l : Conversation.collection) :
  Forall (fun c => Conversation._id c < Conversation._id d) l ->
  Conversation.save now d l = l ++ [Conversation.stamp now d].
Proof.
  intros Hl. unfold Conversation.save.
  assert (He : existsb (fun e => Conversation._id e =? Conversation._id d) l = false).
  { apply not_true_is_false. intros H. apply existsb_exists in H.
    destruct H as [e [Hin He]]. apply Nat.eqb_eq in He.
    pose proof (proj1 (Forall_forall _ l) Hl e Hin) as Hlt. simpl in Hlt. lia. }
  now rewrite He.
Qed.

Lemma save_last (now : nat) (d e : Conversation.doc) (l : Conversation.collection) :
  Forall (fun c => Conversation._id c < Conversation._id d) l ->
  Conversation._id e = Conversation._id d ->
  Conversation.save now d (l ++ [e]) = l ++ [Conversation.overwrite now d e].
Proof.
  intros Hl He. unfold Conversation.save.
  assert (Hx : existsb (fun x => Conversation._id x =? Conversation._id d) (l ++ [e]) = true).
  { apply existsb_exists. exists e. split; [|now apply Nat.eqb_eq].
    apply in_or_app. right. now left. }
  rewrite Hx, map_app. simpl. rewrite (proj2 (Nat.eqb_eq _ _) He). f_equal.
  rewrite <- (map_id l) at 2. apply map_ext_in. intros c Hc.
  pose proof (proj1 (Forall_forall _ l) Hl c Hc) as Hlt. simpl in Hlt.
  assert (Hn : (Conversation._id c =? Conversation._id d) = false)
    by (apply Nat.eqb_neq; lia).
  now rewrite Hn.
Qed.

Lemma msg_findById_map (f : Message.doc -> Message.doc) (id : ObjectId)
    (l : Message.collection) :
  (forall m, Message._id (f m) = Message._id m) ->
  Message.findById id (map f l) = option_map f (Message.findById id l).
Proof.
  intros Hf. unfold Message.findById. rewrite find_map.
  f_equal. induction l as [|m l IH]; simpl; [reflexivity|].
  rewrite Hf. now rewrite IH.
Qed.

Lemma msg_findById_fresh (m : Message.doc) (l : Message.collection) (n : nat) :
  Forall (fun x => Message._id x < n) l -> n <= Message._id m ->
  Message.findById (Message._id m) (l ++ [m]) = Some m.
Proof.
  intros Hl Hn. unfold Message.findById. rewrite find_app_fresh.
  - simpl. now rewrite Nat.eqb_refl.
  - destruct (List.find _ l) as [x|] eqn:E; [|reflexivity].
    apply find_some in E. destruct E as [Hin He]. apply Nat.eqb_eq in He.
    pose proof (proj1 (Forall_forall _ l) Hl x Hin) as Hlt. simpl in Hlt. lia.
Qed.

Lemma pointer_ok_app (ms ms' : Message.collection) (c : Conversation.doc) :
  pointer_ok ms c -> pointer_ok (ms ++ ms') c.
Proof.
  intros H mid Hm. destruct (H mid Hm) as [m [Hf Hc]].
  exists m. split; [|exact Hc]. unfold Message.findById in *.
  now apply find_app_found.
Qed.

Lemma pointer_ok_map (f : Message.doc -> Message.doc) (ms : Message.collection)
    (c : Conversation.doc) :
  (forall m, Message._id (f m) = Message._id m) ->
  (forall m, Message.conversationId (f m) = Message.conversationId m) ->
  pointer_ok ms c -> pointer_ok (map f ms) c.
Proof.
  intros Hi Hc H mid Hm. destruct (H mid Hm) as [m [Hf Hcm]].
  exists (f m). split; [|now rewrite Hc].
  rewrite (msg_findById_map f mid ms Hi). now rewrite Hf.
Qed.

Lemma pointer_ok_new (ms : Message.collection) (m : Message.doc) (n : nat)
    (d c : Conversation.doc) :
  Forall (fun x => Message._id x < n) ms -> n <= Message._id m ->
  Conversation.lastMessage d = Some (Message._id m) ->
  Message.conversationId m = Conversation._id d ->
  same_fields d c -> pointer_ok (ms ++ [m]) c.
Proof.
  intros Hl Hn Hlm Hcm [Hid [_ [_ Hlast]]] mid Hmid.
  rewrite Hlast, Hlm in Hmid. inversion Hmid; subst mid.
  exists m. split; [now apply msg_findById_fresh with n | congruence].
Qed.

(** A stored message and a saved conversation that points to it. *)
Lemma inv_message_saved (us : list ObjectId) (convs convs' : Conversation.collection)
    (ms : Message.collection) (n n' : nat) (d : Conversation.doc) (m : Message.doc) :
  ids_below (mkStore us convs ms n) ->
  pointers_ok (mkStore us convs ms n) ->
  (forall c, In c convs' -> In c convs \/ same_fields d c) ->
  n <= Message._id m -> Message._id m < n' -> Conversation._id d < n' ->
  Conversation.lastMessage d = Some (Message._id m) ->
  Message.conversationId m = Conversation._id d ->
  ids_below (mkStore us convs' (ms ++ [m]) n')
  /\ pointers_ok (mkStore us convs' (ms ++ [m]) n').
Proof.
  unfold ids_below, pointers_ok. cbn [conversations messages next_id].
  intros [Hc Hm] Hp Hin Hn Hn' Hd Hlm Hcm.
  rewrite Forall_forall in Hc, Hp.
  repeat split.
  - apply Forall_forall. intros c Hcin. destruct (Hin c Hcin) as [H|[H _]].
    + specialize (Hc c H). simpl in Hc. lia.
    + lia.
  - apply Forall_app. split.
    + eapply Forall_impl; [|exact Hm]. simpl. intros; lia.
    + constructor; [exact Hn' | constructor].
  - apply Forall_forall. intros c Hcin. destruct (Hin c Hcin) as [H|H].
    + apply pointer_ok_app. now apply Hp.
    + now apply pointer_ok_new with n d.
Qed.

Lemma inv_messages_mapped (f : Message.doc -> Message.doc) (s : Store) :
  (forall m, Message._id (f m) = Message._id m) ->
  (forall m, Message.conversationId (f m) = Message.conversationId m) ->
  ids_below s -> pointers_ok s ->
  ids_below (mkStore (users s) (conversations s) (map f (messages s)) (next_id s))
  /\ pointers_ok (mkStore (users s) (conversations s) (map f (messages s)) (next_id s)).
Proof.
  unfold ids_below, pointers_ok. cbn [conversations messages next_id].
  intros Hi Hc [Hcs Hms] Hp. repeat split; [exact Hcs | |].
  - apply Forall_map. eapply Forall_impl; [|exact Hms]. simpl. intros m. now rewrite Hi.
  - eapply Forall_impl; [|exact Hp]. intros c. now apply pointer_ok_map.
Qed.

Lemma getConversation_store (U C : ObjectId) (s : Store) :
  snd (getConversation U C s) = s.
Proof.
  unfold getConversation, bind, gets, next, ret.
  destruct (Conversation.findById C (conversations s)); simpl; [|reflexivity].
  now destruct (existsb _ _).
Qed.

Lemma store_eta (s : Store) :
  mkStore (users s) (conversations s) (messages s) (next_id s) = s.
Proof. now destruct s. Qed.

Lemma getMessagesByConversation_store (U C : ObjectId) (s : Store) :
  snd (getMessagesByConversation U C s) = s
  \/ snd (getMessagesByConversation U C s)
     = mkStore (users s) (conversations s)
         (map (fun d => if Message.q_read_false C U d then Message.u_read_true d else d)
              (messages s))
         (next_id s).
Proof.
  unfold getMessagesByConversation, bind, Conversation_findById, gets,
    Message_updateMany, ret, next.
  destruct (Conversation.findById C (conversations s)) as [c|]; simpl; [|now left].
  destruct (includes U (Conversation.participants c)); simpl; [now right | now left].
Qed.

Lemma markMessagesAsRead_store (U C : ObjectId) (s : Store) :
  snd (markMessagesAsRead U C s) = s
  \/ snd (markMessagesAsRead U C s)
     = mkStore (users s) (conversations s)
         (map (fun d => if Message.q_unread C U d
                        then Message.u_addToSet_readBy U d else d) (messages s))
         (next_id s).
Proof.
  unfold markMessagesAsRead, bind, Conversation_findById, gets,
    Message_updateMany, ret, next.
  destruct (Conversation.findById C (conversations s)) as [c|]; simpl; [|now left].
  destruct (includes U (Conversation.participants c)); simpl; [now right | now left].
Qed.

Lemma sendMessage_store (rd : option bool) (now : nat) (U : ObjectId) (body : SendBody)
    (s : Store) :
  snd (sendMessage rd now U body s) = s
  \/ exists C T c,
       Conversation.findById C (conversations s) = Some c
       /\ snd (sendMessage rd now U body s)
          = mkStore (users s)
              (Conversation.save now (Conversation.set_lastMessage (next_id s) c)
                 (conversations s))
              (messages s ++ [Message.mk (next_id s) C U T [U] rd now])
              (S (next_id s)).
Proof.
  destruct (sendMessage rd now U body s) as [[m|e] s'] eqn:E.
  - right. destruct (sendMessage_Sent _ _ _ _ _ _ _ E) as [C [T [c [Hb [HT [Hc HU]]]]]].
    exists C, T, c. split; [exact Hc|]. subst body.
    rewrite (sendMessage_participant rd now s U C c T Hc HU HT) in E.
    now inversion E.
  - left. revert E. unfold sendMessage.
    destruct (sb_conversationId body) as [C|]; [|now inversion 1].
    destruct (truthy (sb_content body)) as [t|]; [|now inversion 1].
    unfold bind, Conversation_findById, gets, next.
    destruct (Conversation.findById C (conversations s)) as [c|]; [|now inversion 1].
    destruct (includes U (Conversation.participants c)); [|now inversion 1].
    unfold Message_create, fresh_id, bind, Conversation_save, modify, ret, Message.create.
    discriminate.
Qed.

Lemma createConversation_store (rd : option bool) (now : nat) (A : ObjectId)
    (body : CreateBody) (s : Store) :
  snd (createConversation rd now A body s) = s
  \/ exists x, fst (createConversation rd now A body s) = Sent x.
Proof.
  destruct (createConversation rd now A body s) as [[x|e] s'] eqn:E.
  - right. now exists x.
  - left. revert E. unfold createConversation.
    destruct (cb_receiverId body) as [B|]; [|now inversion 1].
    destruct (truthy (cb_initialMessage body)) as [t|]; [|now inversion 1].
    unfold bind at 1. unfold gets at 1.
    destruct (User_findById B s); cbn [negb]; [|now inversion 1].
    unfold bind, gets, Message_create, fresh_id, bind, Conversation_save, modify,
      ret, Message.create.
    destruct (Conversation.findOne _ _); discriminate.
Qed.

Lemma findOne_in (q : Conversation.doc -> bool) (l : Conversation.collection)
    (c : Conversation.doc) :
  Conversation.findOne q l = Some c -> In c l /\ q c = true.
Proof. unfold Conversation.findOne. apply find_some. Qed.

Lemma findById_present (c : Conversation.doc) (l : Conversation.collection) :
  In c l -> exists c0, Conversation.findById (Conversation._id c) l = Some c0.
Proof.
  intros Hin. unfold Conversation.findById, Conversation.findOne.
  apply find_present with c; [exact Hin | apply Nat.eqb_refl].
Qed.

Lemma save_twice_fresh (now : nat) (d : Conversation.doc) (l : Conversation.collection) :
  Forall (fun c => Conversation._id c < Conversation._id d) l ->
  Conversation.save now d (Conversation.save now d l)
  = l ++ [Conversation.mk (Conversation._id d) (Conversation.participants d)
            (Conversation.itemId d) (Conversation.lastMessage d) now now].
Proof.
  intros Hl. rewrite (save_fresh now d l Hl).
  now rewrite (save_last now d (Conversation.stamp now d) l Hl eq_refl).
Qed.

Lemma sendMessage_inv (rd : option bool) (now : nat) (U : ObjectId) (body : SendBody)
    (s : Store) :
  ids_below s -> pointers_ok s ->
  ids_below (snd (sendMessage rd now U body s))
  /\ pointers_ok (snd (sendMessage rd now U body s)).
Proof.
  intros Hi Hp.
  destruct (sendMessage_store rd now U body s) as [->|[C [T [c [Hc ->]]]]];
    [now split|].
  destruct (findById_id _ _ _ Hc) as [_ Hid].
  rewrite <- (store_eta s) in Hi, Hp.
  eapply inv_message_saved with (d := Conversation.set_lastMessage (next_id s) c);
    try eassumption.
  - intros c'. apply in_save.
  - simpl. lia.
  - simpl. lia.
  - simpl. destruct Hi as [Hi _]. cbn [conversations next_id] in Hi.
    destruct (findById_id _ _ _ Hc) as [Hin _].
    pose proof (proj1 (Forall_forall _ _) Hi c Hin) as Hlt. simpl in Hlt. lia.
  - reflexivity.
  - simpl. now rewrite Hid.
Qed.

Lemma createConversation_inv (rd : option bool) (now : nat) (A : ObjectId)
    (body : CreateBody) (s : Store) :
  ids_below s -> pointers_ok s ->
  ids_below (snd (createConversation rd now A body s))
  /\ pointers_ok (snd (createConversation rd now A body s)).
Proof.
  intros Hi Hp.
  destruct (createConversation_store rd now A body s) as [->|[x Hx]]; [now split|].
  destruct (createConversation rd now A body s) as [o s'] eqn:E.
  simpl in Hx. subst o.
  destruct (createConversation_Sent _ _ _ _ _ _ _ E) as [B [T [Hb [HT HB]]]].
  rewrite Hb in E. cbn [snd].
  rewrite <- (store_eta s) in Hi, Hp.
  destruct (Conversation.findOne
              (Conversation.q_pair_item A B (cb_itemId body)) (conversations s))
    as [c|] eqn:Hf.
  - rewrite (createConversation_existing rd now A B _ T s c HB HT Hf) in E.
    inversion E; subst s'. clear E.
    eapply inv_message_saved with (d := Conversation.set_lastMessage (next_id s) c);
      try eassumption.
    + intros c'. apply in_save.
    + simpl. lia.
    + simpl. lia.
    + simpl. destruct Hi as [Hi _]. cbn [conversations next_id] in Hi.
      destruct (findOne_in _ _ _ Hf) as [Hin _].
      pose proof (proj1 (Forall_forall _ _) Hi c Hin) as Hlt. simpl in Hlt. lia.
    + reflexivity.
    + reflexivity.
  - rewrite (createConversation_new rd now A B _ T s HB HT Hf) in E.
    inversion E; subst s'. clear E.
    eapply inv_message_saved
      with (d := Conversation.mk (next_id s) [A; B] (cb_itemId body)
                   (Some (S (next_id s))) 0 0);
      try eassumption.
    + intros c' Hc'. apply in_save in Hc'. destruct Hc' as [Hc'|Hc']; [|now right].
      now apply in_save in Hc'.
    + simpl. lia.
    + simpl. lia.
    + simpl. lia.
    + reflexivity.
    + reflexivity.
Qed.

Lemma handle_inv (rd : option bool) (r : Request) (s : Store) :
  ids_below s -> pointers_ok s ->
  ids_below (handle rd r s) /\ pointers_ok (handle rd r s).
Proof.
  intros Hi Hp. destruct r as [u|u i|now u b|u c|u c|now u b]; cbn [handle].
  - rewrite getConversations_value. now split.
  - rewrite getConversation_store. now split.
  - now apply createConversation_inv.
  - destruct (getMessagesByConversation_store u c s) as [->| ->]; [now split|].
    apply inv_messages_mapped; try assumption;
      intros m; now destruct (Message.q_read_false c u m).
  - destruct (markMessagesAsRead_store u c s) as [->| ->]; [now split|].
    apply inv_messages_mapped; try assumption;
      intros m; now destruct (Message.q_unread c u m).
  - now apply sendMessage_inv.
Qed.

Lemma reachable_inv (rd : option bool) (s : Store) :
  reachable rd s -> ids_below s /\ pointers_ok s.
Proof.
  induction 1 as [us|s r Hr [Hi Hp]].
  - unfold ids_below, pointers_ok. simpl. repeat split; constructor.
  - now apply handle_inv.
Qed.

(** C10. In a store the handlers have produced, a createConversation or
    sendMessage that is answered with message m leaves a conversation whose
    identifier is m's owning-conversation reference and whose last-message
    pointer resolves to m; and in every such store, before and after, every
    set last-message pointer resolves to a message of its own conversation. *)
Theorem lastMessage_C10 (rd : option bool) (now : nat) (U : ObjectId)
    (s s' : Store) (m : Message.doc)
    (Hr : reachable rd s)
    (H : (exists body pc, createConversation rd now U body s = (Sent (pc, m), s'))
         \/ (exists body, sendMessage rd now U body s = (Sent m, s'))) :
  (exists c,
      Conversation.findById (Message.conversationId m) (conversations s') = Some c
      /\ Conversation._id c = Message.conversationId m
      /\ Conversation.lastMessage c = Some (Message._id m)
      /\ Message.findById (Message._id m) (messages s') = Some m)
  /\ pointers_ok s
  /\ pointers_ok s'.
Proof.
  destruct (reachable_inv rd s Hr) as [Hi Hp].
  assert (Hms : Forall (fun x => Message._id x < next_id s) (messages s))
    by apply Hi.
  assert (Hcs : Forall (fun x => Conversation._id x < next_id s) (conversations s))
    by apply Hi.
  split; [|split; [exact Hp|]].
  - destruct H as [[body [pc H]]|[body H]].
    + destruct (createConversation_Sent _ _ _ _ _ _ _ H) as [B [T [Hb [HT HB]]]].
      rewrite Hb in H.
      destruct (Conversation.findOne
                  (Conversation.q_pair_item U B (cb_itemId body)) (conversations s))
        as [c|] eqn:Hf.
      * rewrite (createConversation_existing rd now U B _ T s c HB HT Hf) in H.
        inversion H; subst. clear H.
        cbn [Message.conversationId Message._id conversations messages].
        destruct (findOne_in _ _ _ Hf) as [Hin _].
        destruct (findById_present c _ Hin) as [c0 Hc0].
        eexists. split.
        { change (Conversation._id c)
            with (Conversation._id (Conversation.set_lastMessage (next_id s) c)) at 1.
          apply findById_save. exact Hc0. }
        repeat split.
        apply (msg_findById_fresh
                 (Message.mk (next_id s) (Conversation._id c) U T [U] rd now)
                 (messages s) (next_id s) Hms).
        simpl. lia.
      * rewrite (createConversation_new rd now U B _ T s HB HT Hf) in H.
        rewrite (save_twice_fresh now
                   (Conversation.mk (next_id s) [U; B] (cb_itemId body)
                      (Some (S (next_id s))) 0 0)
                   (conversations s) Hcs) in H.
        inversion H; subst. clear H.
        cbn [Message.conversationId Message._id conversations messages
             Conversation._id Conversation.participants Conversation.itemId
             Conversation.lastMessage].
        eexists. split.
        { unfold Conversation.findById, Conversation.findOne.
          rewrite find_app_fresh.
          - simpl. now rewrite Nat.eqb_refl.
          - destruct (List.find _ (conversations s)) as [x|] eqn:E; [|reflexivity].
            apply find_some in E. destruct E as [Hin He]. apply Nat.eqb_eq in He.
            pose proof (proj1 (Forall_forall _ _) Hcs x Hin) as Hlt.
            simpl in Hlt. lia. }
        repeat split.
        apply (msg_findById_fresh
                 (Message.mk (S (next_id s)) (next_id s) U T [U] rd now)
                 (messages s) (next_id s) Hms).
        simpl. lia.
    + destruct (sendMessage_Sent _ _ _ _ _ _ _ H) as [C [T [c [Hb [HT [Hc HU]]]]]].
      rewrite Hb in H.
      rewrite (sendMessage_participant rd now s U C c T Hc HU HT) in H.
      inversion H; subst. clear H.
      cbn [Message.conversationId Message._id conversations messages].
      destruct (findById_id _ _ _ Hc) as [_ Hid].
      eexists. split.
      { rewrite <- Hid at 1.
        change (Conversation._id c)
          with (Conversation._id (Conversation.set_lastMessage (next_id s) c)) at 1.
        apply findById_save. simpl. rewrite Hid. exact Hc. }
      repeat split; [exact Hid|].
      apply (msg_findById_fresh (Message.mk (next_id s) C U T [U] rd now)
               (messages s) (next_id s) Hms).
      simpl. lia.
  - destruct H as [[body [pc H]]|[body H]].
    + pose proof (createConversation_inv rd now U body s Hi Hp) as [_ G].
      now rewrite H in G.
    + pose proof (sendMessage_inv rd now U body s Hi Hp) as [_ G].
      now rewrite H in G.
Qed.

(** C10, for a reply of user 2 in the store that one createConversation
    has produced. *)
Lemma lastMessage_C10_witness :
  (exists c,
      Conversation.findById 0
        (conversations
           (snd (sendMessage None 9 bob (mkSendBody (Some 0) (Some "re"%string)) store1)))
      = Some c
      /\ Conversation._id c = 0
      /\ Conversation.lastMessage c = Some 2
      /\ Message.findById 2
           (messages
              (snd (sendMessage None 9 bob (mkSendBody (Some 0) (Some "re"%string)) store1)))
         = Some (Message.mk 2 0 bob "re" [bob] None 9))
  /\ pointers_ok store1
  /\ pointers_ok
       (snd (sendMessage None 9 bob (mkSendBody (Some 0) (Some "re"%string)) store1)).
Proof.
  apply (lastMessage_C10 None 9 bob store1
           (snd (sendMessage None 9 bob (mkSendBody (Some 0) (Some "re"%string)) store1))
           (Message.mk 2 0 bob "re" [bob] None 9)).
  - apply reach_step. apply reach_empty.
  - right. exists (mkSendBody (Some 0) (Some "re"%string)). reflexivity.
Defined.

(** ** Calling createConversation twice *)




Lemma nodup_id_unique (l : Conversation.collection) (e c : Conversation.doc) :
  NoDup (map Conversation._id l) -> In e l -> In c l ->
  Conversation._id e = Conversation._id c -> e = c.
Proof.
  induction l as [|a l IH]; simpl; [contradiction|].
  intros Hnd He Hc Hid. inversion Hnd as [|x xs Hnotin Hnd']; subst.
  destruct He as [He|He], Hc as [Hc|Hc]; subst.
  - reflexivity.
  - exfalso. apply Hnotin. rewrite Hid. now apply in_map.
  - exfalso. apply Hnotin. rewrite <- Hid. now apply in_map.
  - now apply IH.
Qed.

Lemma handle_conversation_ids (rd : option bool) (r : Request) (s : Store) :
  ids_below s ->
  map Conversation._id (conversations (handle rd r s))
  = map Conversation._id (conversations s)
  \/ map Conversation._id (conversations (handle rd r s))
     = map Conversation._id (conversations s) ++ [next_id s].
Proof.
  intros [Hcs _]. destruct r as [u|u i|now u b|u c|u c|now u b]; cbn [handle].
  - rewrite getConversations_value. now left.
  - rewrite getConversation_store. now left.
  - destruct (createConversation_store rd now u b s) as [->|[x Hx]]; [now left|].
    destruct (createConversation rd now u b s) as [o s'] eqn:E.
    simpl in Hx. subst o.
    destruct (createConversation_Sent _ _ _ _ _ _ _ E) as [B [T [Hb [HT HB]]]].
    rewrite Hb in E. cbn [snd].
    destruct (Conversation.findOne
                (Conversation.q_pair_item u B (cb_itemId b)) (conversations s))
      as [c|] eqn:Hf.
    + rewrite (createConversation_existing rd now u B _ T s c HB HT Hf) in E.
      inversion E; subst s'. clear E. left. cbn [conversations].
      destruct (findOne_in _ _ _ Hf) as [Hin _].
      destruct (findById_present c _ Hin) as [c0 Hc0].
      apply (save_ids now (Conversation.set_lastMessage (next_id s) c) c0). exact Hc0.
    + rewrite (createConversation_new rd now u B _ T s HB HT Hf) in E.
      rewrite (save_twice_fresh now
                 (Conversation.mk (next_id s) [u; B] (cb_itemId b)
                    (Some (S (next_id s))) 0 0)
                 (conversations s) Hcs) in E.
      inversion E; subst s'. clear E. right. cbn [conversations].
      now rewrite map_app.
  - destruct (getMessagesByConversation_store u c s) as [->| ->]; now left.
  - destruct (markMessagesAsRead_store u c s) as [->| ->]; now left.
  - destruct (sendMessage_store rd now u b s) as [->|[C [T [c [Hc ->]]]]]; [now left|].
    left. cbn [conversations].
    apply (save_ids now (Conversation.set_lastMessage (next_id s) c) c).
    simpl. destruct (findById_id _ _ _ Hc) as [_ ->]. exact Hc.
Qed.

Lemma reachable_nodup (rd : option bool) (s : Store) :
  reachable rd s -> NoDup (map Conversation._id (conversations s)).
Proof.
  induction 1 as [us|s r Hr IH]; [constructor|].
  destruct (reachable_inv rd s Hr) as [Hi _].
  destruct (handle_conversation_ids rd r s Hi) as [-> | ->]; [exact IH|].
  apply NoDup_app; [exact IH | repeat constructor; intros [] |].
  intros x Hx [Hn|[]]. subst x. apply in_map_iff in Hx.
  destruct Hx as [c [Hc Hin]]. destruct Hi as [Hcs _].
  pose proof (proj1 (Forall_forall _ _) Hcs c Hin) as Hlt. simpl in Hlt. lia.
Qed.


(** ** One conversation per pair and item *)








(** ** The key of the specification and the lookup of the code *)









(** ** The single-flight guards of the pollers *)

Lemma list_effect_isFetching_kept (es : list ConversationList.Event)
    (v : ConversationList.View) :
  Forall (fun e => e <> ConversationList.Mount) es ->
  ConversationList.effect_isFetching (fold_left ConversationList.step es v)
  = ConversationList.effect_isFetching v.
Proof.
  revert v. induction es as [|e es IH]; intros v Hes; [reflexivity|].
  inversion Hes as [|x xs He Hes']; subst. cbn [fold_left].
  rewrite (IH _ Hes'). destruct e as [| |i r|]; cbn [ConversationList.step].
  - contradiction.
  - destruct (ConversationList.interval v); [|reflexivity].
    unfold ConversationList.fetchConversations.
    destruct (ConversationList.effect_isFetching v && true); reflexivity.
  - now destruct (nth_error (ConversationList.pending v) i).
  - reflexivity.
Qed.

(** Whatever happened since the list was mounted, and however many requests
    are still pending, a timer firing while the timer is set starts one more
    polling request. *)
Lemma list_tick_always_fetches (es : list ConversationList.Event) :
  Forall (fun e => e <> ConversationList.Mount) es ->
  let v := ConversationList.run (ConversationList.Mount :: es) in
  ConversationList.interval v = true ->
  ConversationList.polls_in_flight (ConversationList.step v ConversationList.Tick)
  = S (ConversationList.polls_in_flight v).
Proof.
  intros Hes v Hi.
  assert (Hseen : ConversationList.effect_isFetching v = false).
  { unfold v, ConversationList.run. cbn [fold_left].
    now rewrite (list_effect_isFetching_kept es _ Hes). }
  cbn [ConversationList.step]. rewrite Hi.
  unfold ConversationList.fetchConversations. rewrite Hseen.
  unfold ConversationList.polls_in_flight. cbn [andb negb ConversationList.pending].
  rewrite filter_app, length_app. simpl. lia.
Qed.

Lemma thread_effect_isFetching_kept (es : list ConversationComponent.Event)
    (v : ConversationComponent.View) :
  Forall (fun e => forall c, e <> ConversationComponent.Show c) es ->
  ConversationComponent.effect_isFetchingMessages
    (fold_left ConversationComponent.step es v)
  = ConversationComponent.effect_isFetchingMessages v.
Proof.
  revert v. induction es as [|e es IH]; intros v Hes; [reflexivity|].
  inversion Hes as [|x xs He Hes']; subst. cbn [fold_left].
  rewrite (IH _ Hes'). destruct e as [c| |i r|]; cbn [ConversationComponent.step].
  - now destruct (He c).
  - destruct (ConversationComponent.interval v); [|reflexivity].
    unfold ConversationComponent.fetchMessagesAndUpdateState,
      ConversationComponent.after.
    destruct (ConversationComponent.effect_isFetchingMessages v) eqn:E;
      simpl; try rewrite E; reflexivity.
  - destruct (nth_error (ConversationComponent.pending v) i) as [t|]; [|reflexivity].
    destruct t as [seen id|init id|init id], r as [[|x xs]|];
      cbn [ConversationComponent.resume ConversationComponent.fetchMessagesAndUpdateState];
      unfold ConversationComponent.after;
      try destruct seen; try destruct init; reflexivity.
  - reflexivity.
Qed.

(** The same for an open thread: after it has been shown, every timer
    firing starts one more fetch of the messages. *)
Lemma thread_tick_always_fetches (id : ObjectId) (es : list ConversationComponent.Event) :
  Forall (fun e => forall c, e <> ConversationComponent.Show c) es ->
  let v := ConversationComponent.run (ConversationComponent.Show (Some id) :: es) in
  ConversationComponent.interval v <> None ->
  ConversationComponent.polls_in_flight
    (ConversationComponent.step v ConversationComponent.Tick)
  = S (ConversationComponent.polls_in_flight v).
Proof.
  intros Hes v Hi.
  assert (Hseen : ConversationComponent.effect_isFetchingMessages v = false).
  { unfold v, ConversationComponent.run. cbn [fold_left].
    now rewrite (thread_effect_isFetching_kept es _ Hes). }
  cbn [ConversationComponent.step].
  destruct (ConversationComponent.interval v) as [i|]; [|contradiction].
  unfold ConversationComponent.fetchMessagesAndUpdateState. rewrite Hseen.
  unfold ConversationComponent.polls_in_flight, ConversationComponent.park.
  cbn [ConversationComponent.pending ConversationComponent.with_state].
  rewrite filter_app, length_app. simpl. lia.
Qed.

(** C9, evaluated.  The conversation list is mounted and its first load has
    come back.  The timer fires and a polling request goes out; the timer
    fires again before that request has settled, and a second polling request
    goes out while [isFetching] is set.  Likewise for an open thread whose
    first load has come back: two timer firings leave two message fetches in
    flight while [isFetchingMessages] is set. *)
Theorem overlapping_polls_C9 :
  (let v := ConversationList.run
              [ConversationList.Mount; ConversationList.Settle 0 (Some [10]);
               ConversationList.Tick] in
   ConversationList.pending v = [true]
   /\ ConversationList.isFetching (ConversationList.state v) = true
   /\ ConversationList.pending (ConversationList.step v ConversationList.Tick)
      = [true; true])
  /\ (let w := ConversationComponent.run
                 [ConversationComponent.Show (Some 10);
                  ConversationComponent.Settle 0 (Some [10]);
                  ConversationComponent.Settle 0 (Some []);
                  ConversationComponent.Tick] in
      ConversationComponent.pending w = [ConversationComponent.AwaitMessages false 10]
      /\ ConversationComponent.isFetchingMessages (ConversationComponent.state w) = true
      /\ ConversationComponent.pending
           (ConversationComponent.step w ConversationComponent.Tick)
         = [ConversationComponent.AwaitMessages false 10;
            ConversationComponent.AwaitMessages false 10]).
Proof. repeat split. Qed.

(** * Further properties of the handlers *)

(** ** Every request is one transition *)

Lemma sendMessage_Next (rd : option bool) (now : nat) (U : ObjectId) (body : SendBody)
    (s s' : Store) (e : ErrorResponse) :
  sendMessage rd now U body s = (Next e, s') -> s' = s.
Proof.
  unfold sendMessage, next.
  destruct (sb_conversationId body) as [C|]; [|now inversion 1].
  destruct (truthy (sb_content body)) as [t|]; [|now inversion 1].
  unfold bind, Conversation_findById, gets.
  destruct (Conversation.findById C (conversations s)) as [c|]; [|now inversion 1].
  destruct (includes U (Conversation.participants c)); [|now inversion 1].
  unfold Message_create, fresh_id, bind, Conversation_save, modify, ret, Message.create.
  discriminate.
Qed.

Lemma handle_transition (rd : option bool) (r : Request) (s : Store) :
  ids_below s -> transition rd s (handle rd r s).
Proof.
  intros [Hcs _]. destruct r as [u|u i|now u b|u c|u c|now u b]; cbn [handle].
  - rewrite getConversations_value. constructor.
  - rewrite getConversation_store. constructor.
  - destruct (createConversation_store rd now u b s) as [->|[x Hx]]; [constructor|].
    destruct (createConversation rd now u b s) as [o s'] eqn:E.
    simpl in Hx. subst o.
    destruct (createConversation_Sent _ _ _ _ _ _ _ E) as [B [T [Hb [HT HB]]]].
    rewrite Hb in E. cbn [snd].
    destruct (Conversation.findOne
                (Conversation.q_pair_item u B (cb_itemId b)) (conversations s))
      as [c|] eqn:Hf.
    + rewrite (createConversation_existing rd now u B _ T s c HB HT Hf) in E.
      inversion E; subst s'. clear E.
      destruct (findOne_in _ _ _ Hf) as [Hin Hq].
      apply tr_message; try assumption.
      unfold Conversation.q_pair_item in Hq.
      apply andb_true_iff in Hq. destruct Hq as [Hq _].
      apply andb_true_iff in Hq. now destruct Hq.
    + rewrite (createConversation_new rd now u B _ T s HB HT Hf) in E.
      rewrite (save_twice_fresh now
                 (Conversation.mk (next_id s) [u; B] (cb_itemId b)
                    (Some (S (next_id s))) 0 0)
                 (conversations s) Hcs) in E.
      inversion E; subst s'. clear E.
      now apply tr_conversation.
  - unfold getMessagesByConversation, bind, Conversation_findById, gets,
      Message_updateMany, ret, next.
    destruct (Conversation.findById c (conversations s)) as [d|]; simpl; [|constructor].
    destruct (includes u (Conversation.participants d)); simpl; constructor.
  - unfold markMessagesAsRead, bind, Conversation_findById, gets,
      Message_updateMany, ret, next.
    destruct (Conversation.findById c (conversations s)) as [d|] eqn:Hd; simpl;
      [|constructor].
    destruct (includes u (Conversation.participants d)) eqn:Hu; simpl; [|constructor].
    now apply tr_read with d.
  - destruct (sendMessage rd now u b s) as [[m|e] s'] eqn:E.
    + destruct (sendMessage_Sent _ _ _ _ _ _ _ E) as [C [T [c [Hb [HT [Hc HU]]]]]].
      subst b. rewrite (sendMessage_participant rd now s u C c T Hc HU HT) in E.
      inversion E; subst. cbn [snd].
      destruct (findById_id _ _ _ Hc) as [Hin Hid]. rewrite <- Hid.
      now apply tr_message.
    + cbn [snd]. rewrite (sendMessage_Next _ _ _ _ _ _ _ E). constructor.
Qed.

(** ** What the store keeps *)

Lemma Forall2_map_right {A B} (R : A -> B -> Prop) (f : A -> B) (l : list A) :
  (forall x, In x l -> R x (f x)) -> Forall2 R l (map f l).
Proof.
  induction l as [|a l IH]; intros H; simpl; constructor.
  - apply H. now left.
  - apply IH. intros x Hx. apply H. now right.
Qed.

Lemma msg_grows_refl (m : Message.doc) : msg_grows m m.
Proof. unfold msg_grows. repeat split. apply incl_refl. Qed.

Lemma conv_kept_refl (c : Conversation.doc) : conv_kept c c.
Proof. unfold conv_kept. now repeat split. Qed.

Lemma msg_grows_flag (C U : ObjectId) (m : Message.doc) :
  msg_grows m (if Message.q_read_false C U m then Message.u_read_true m else m).
Proof.
  destruct (Message.q_read_false C U m); [|apply msg_grows_refl].
  unfold msg_grows. simpl. repeat split. apply incl_refl.
Qed.

Lemma msg_grows_read (C U : ObjectId) (m : Message.doc) :
  msg_grows m (if Message.q_unread C U m then Message.u_addToSet_readBy U m else m).
Proof.
  destruct (Message.q_unread C U m); [|apply msg_grows_refl].
  unfold msg_grows. simpl. repeat split.
  unfold addToSet. destruct (includes U (Message.readBy m)); [apply incl_refl|].
  apply incl_appl. apply incl_refl.
Qed.

Lemma saved_kept (now : nat) (n : ObjectId) (c : Conversation.doc)
    (l : Conversation.collection) :
  NoDup (map Conversation._id l) -> In c l ->
  exists g,
    Conversation.save now (Conversation.set_lastMessage n c) l = map g l
    /\ (forall e, In e l -> conv_kept e (g e))
    /\ (forall e, In e l -> Conversation._id e <> Conversation._id c -> g e = e)
    /\ (forall e, In e l -> Conversation._id e = Conversation._id c ->
                  Conversation.lastMessage (g e) = Some n
                  /\ Conversation.updatedAt (g e) = now).
Proof.
  intros Hnd Hin.
  destruct (findById_present c l Hin) as [c0 Hc0].
  exists (fun e => if Conversation._id e =? Conversation._id c
                   then Conversation.overwrite now (Conversation.set_lastMessage n c) e
                   else e).
  split; [exact (save_existing now (Conversation.set_lastMessage n c) c0 l Hc0)|].
  split; [|split].
  - intros e He. destruct (Conversation._id e =? Conversation._id c) eqn:E;
      [|apply conv_kept_refl].
    apply Nat.eqb_eq in E. rewrite (nodup_id_unique l e c Hnd He Hin E).
    unfold conv_kept. now repeat split.
  - intros e _ Hne. apply Nat.eqb_neq in Hne. now rewrite Hne.
  - intros e _ He. apply Nat.eqb_eq in He. rewrite He. now split.
Qed.

(** What one transition keeps of a store with distinct conversation
    identifiers. *)
Lemma transition_keeps (rd : option bool) (s s' : Store) :
  transition rd s s' ->
  NoDup (map Conversation._id (conversations s)) ->
  users s' = users s
  /\ next_id s <= next_id s'
  /\ (exists ms tail,
        messages s' = ms ++ tail /\ Forall2 msg_grows (messages s) ms
        /\ List.length tail <= 1)
  /\ (exists cs tail,
        conversations s' = cs ++ tail /\ Forall2 conv_kept (conversations s) cs
        /\ List.length tail <= 1).
Proof.
  intros Ht Hnd.
  assert (Hm : Forall2 msg_grows (messages s) (messages s)).
  { rewrite <- (map_id (messages s)) at 2. apply Forall2_map_right.
    intros; apply msg_grows_refl. }
  assert (Hc : Forall2 conv_kept (conversations s) (conversations s)).
  { rewrite <- (map_id (conversations s)) at 2. apply Forall2_map_right.
    intros; apply conv_kept_refl. }
  destruct Ht as [|U C|U C c Hc1 Hc2|now U T c Hin HU HT|now A B I T Hf HB HT];
    cbn [users next_id messages conversations].
  - repeat split; try lia.
    + exists (messages s), []. rewrite app_nil_r. simpl. repeat split; auto.
    + exists (conversations s), []. rewrite app_nil_r. simpl. repeat split; auto.
  - repeat split; try lia.
    + eexists. exists []. rewrite app_nil_r. simpl. repeat split; auto.
      apply Forall2_map_right. intros m _. apply msg_grows_flag.
    + exists (conversations s), []. rewrite app_nil_r. simpl. repeat split; auto.
  - repeat split; try lia.
    + eexists. exists []. rewrite app_nil_r. simpl. repeat split; auto.
      apply Forall2_map_right. intros m _. apply msg_grows_read.
    + exists (conversations s), []. rewrite app_nil_r. simpl. repeat split; auto.
  - destruct (saved_kept now (next_id s) c _ Hnd Hin) as [g [Hg [Hk _]]].
    repeat split; try lia.
    + eexists. eexists [_]. simpl. repeat split; auto.
    + exists (map g (conversations s)), []. rewrite app_nil_r. simpl.
      repeat split; auto. now apply Forall2_map_right.
  - repeat split; try lia.
    + eexists. eexists [_]. simpl. repeat split; auto.
    + eexists. eexists [_]. simpl. repeat split; auto.
Qed.

(** X1. Whatever request comes in, in a store the handlers have produced:
    the user directory is untouched, the identifier counter does not go back,
    every stored message stays where it is with its identifier, conversation,
    writer, text and creation time, and with no reader removed; every stored
    conversation stays where it is with its identifier, participants, item
    and creation time; at most one message and at most one conversation are
    added, at the end. *)
Theorem history_is_kept (rd : option bool) (r : Request) (s : Store)
    (Hr : reachable rd s) :
  users (handle rd r s) = users s
  /\ next_id s <= next_id (handle rd r s)
  /\ (exists ms tail,
        messages (handle rd r s) = ms ++ tail
        /\ Forall2 msg_grows (messages s) ms
        /\ List.length tail <= 1)
  /\ (exists cs tail,
        conversations (handle rd r s) = cs ++ tail
        /\ Forall2 conv_kept (conversations s) cs
        /\ List.length tail <= 1).
Proof.
  destruct (reachable_inv rd s Hr) as [Hi _].
  apply (transition_keeps rd s (handle rd r s)).
  - now apply handle_transition.
  - now apply reachable_nodup with rd.
Qed.

Lemma store1_reachable : reachable None store1.
Proof. apply reach_step. apply reach_empty. Qed.

(** X1, for a reply of user 2 in the store after one createConversation. *)
Lemma history_is_kept_witness :
  users (handle None (SendMessage 9 bob (mkSendBody (Some 0) (Some "re"%string))) store1)
  = users store1
  /\ next_id store1
     <= next_id (handle None (SendMessage 9 bob (mkSendBody (Some 0) (Some "re"%string)))
                   store1)
  /\ (exists ms tail,
        messages (handle None (SendMessage 9 bob (mkSendBody (Some 0) (Some "re"%string)))
                    store1) = ms ++ tail
        /\ Forall2 msg_grows (messages store1) ms
        /\ List.length tail <= 1)
  /\ (exists cs tail,
        conversations
          (handle None (SendMessage 9 bob (mkSendBody (Some 0) (Some "re"%string))) store1)
        = cs ++ tail
        /\ Forall2 conv_kept (conversations store1) cs
        /\ List.length tail <= 1).
Proof.
  apply (history_is_kept None
           (SendMessage 9 bob (mkSendBody (Some 0) (Some "re"%string))) store1).
  apply reach_step. apply reach_empty.
Defined.

(** ** Invariants of the stored messages *)

Lemma message_sound_kept (cs cs' : Conversation.collection) (m : Message.doc) :
  (forall c', In c' cs' -> Conversation._id c' = Message.conversationId m ->
              exists c, In c cs /\ conv_kept c c') ->
  message_sound cs m -> message_sound cs' m.
Proof.
  intros Hk [H1 [H2 H3]]. split; [exact H1|]. split; [exact H2|].
  intros c' Hin Hid. destruct (Hk c' Hin Hid) as [c [Hc [K1 [K2 _]]]].
  rewrite K2. apply H3; [exact Hc | congruence].
Qed.

Lemma in_map_kept (g : Conversation.doc -> Conversation.doc)
    (cs : Conversation.collection) (c' : Conversation.doc) :
  (forall e, In e cs -> conv_kept e (g e)) ->
  In c' (map g cs) -> exists c, In c cs /\ conv_kept c c'.
Proof.
  intros Hg Hin. apply in_map_iff in Hin. destruct Hin as [e [<- He]].
  exists e. split; [exact He | now apply Hg].
Qed.

(** Every transition keeps a sound store sound. *)
Lemma transition_sound (rd : option bool) (s s' : Store) :
  transition rd s s' -> store_sound s -> store_sound s'.
Proof.
  intros Ht [[Hcs Hms] [Hcv [Hndc [Hndm Hok]]]].
  destruct Ht as [|U C|U C c Hc1 Hc2|now U T c Hin HU HT|now A B I T Hf HB HT];
    unfold store_sound, ids_below; cbn [messages conversations next_id].
  - now repeat split.
  - (* the read flags of a thread are set *)
    repeat split; try assumption.
    + apply Forall_map. eapply Forall_impl; [|exact Hms].
      intros m Hm. now destruct (Message.q_read_false C U m).
    + apply Forall_map. eapply Forall_impl; [|exact Hcv].
      intros m Hm. now destruct (Message.q_read_false C U m).
    + rewrite map_map. rewrite (map_ext _ Message._id); [exact Hndm|].
      intros m. now destruct (Message.q_read_false C U m).
    + apply Forall_map. eapply Forall_impl; [|exact Hok].
      intros m Hm. now destruct (Message.q_read_false C U m).
  - (* a reader is added to a thread *)
    destruct (findById_id _ _ _ Hc1) as [Hcin Hcid].
    repeat split; try assumption.
    + apply Forall_map. eapply Forall_impl; [|exact Hms].
      intros m Hm. now destruct (Message.q_unread C U m).
    + apply Forall_map. eapply Forall_impl; [|exact Hcv].
      intros m Hm. now destruct (Message.q_unread C U m).
    + rewrite map_map. rewrite (map_ext _ Message._id); [exact Hndm|].
      intros m. now destruct (Message.q_unread C U m).
    + apply Forall_map. eapply Forall_impl; [|exact Hok].
      intros m [H1 [H2 H3]].
      destruct (Message.q_unread C U m) eqn:Q; [|exact (conj H1 (conj H2 H3))].
      apply q_unread_spec in Q. destruct Q as [Q1 [Q2 Q3]].
      unfold message_sound.
      cbn [Message.u_addToSet_readBy Message.conversationId Message.senderId
           Message.readBy].
      rewrite (addToSet_absent _ _ Q3). split; [|split].
      * apply in_or_app. now left.
      * apply NoDup_app; [exact H2 | repeat constructor; intros [] |].
        intros x Hx [<-|[]]. contradiction.
      * intros e He Hid. destruct (H3 e He Hid) as [Hs Hr]. split; [exact Hs|].
        assert (Hec : e = c).
        { apply (nodup_id_unique _ e c Hndc He Hcin). congruence. }
        subst e. intros x Hx. apply in_app_or in Hx. destruct Hx as [Hx|[<-|[]]].
        -- now apply Hr.
        -- now apply includes_In.
  - (* a message is stored in an existing conversation *)
    destruct (saved_kept now (next_id s) c _ Hndc Hin) as [g [Hg [Hgk _]]].
    rewrite Hg.
    pose proof (proj1 (Forall_forall _ _) Hcs c Hin) as Hclt. simpl in Hclt.
    repeat split.
    + apply Forall_map. apply Forall_forall. intros e He.
      destruct (Hgk e He) as [K1 _]. rewrite K1.
      pose proof (proj1 (Forall_forall _ _) Hcs e He) as Hlt. simpl in Hlt. lia.
    + apply Forall_app. split.
      * eapply Forall_impl; [|exact Hms]. intros m Hm. simpl in Hm. lia.
      * repeat constructor.
    + apply Forall_app. split.
      * eapply Forall_impl; [|exact Hcv]. intros m Hm. simpl in Hm. lia.
      * constructor; [|constructor]. simpl. lia.
    + rewrite map_map. rewrite (map_ext_in _ Conversation._id); [exact Hndc|].
      intros e He. now destruct (Hgk e He) as [K1 _].
    + rewrite map_app. simpl.
      apply NoDup_app; [exact Hndm | repeat constructor; intros [] |].
      intros x Hx [<-|[]]. apply in_map_iff in Hx. destruct Hx as [m [Hm Hmin]].
      pose proof (proj1 (Forall_forall _ _) Hms m Hmin) as Hlt. simpl in Hlt. lia.
    + apply Forall_app. split.
      * eapply Forall_impl; [|exact Hok]. intros m. apply message_sound_kept.
        intros c' Hc' _. now apply in_map_kept with g.
      * constructor; [|constructor]. unfold message_sound.
        cbn [Message.conversationId Message.senderId Message.readBy].
        split; [now left|]. split; [repeat constructor; intros []|].
        intros c' Hc' Hid.
        destruct (in_map_kept g _ c' Hgk Hc') as [e [He [K1 [K2 _]]]].
        assert (Hec : e = c).
        { apply (nodup_id_unique _ e c Hndc He Hin). congruence. }
        subst e. rewrite K2. apply includes_In in HU.
        split; [exact HU|]. intros x [<-|[]]. exact HU.
  - (* a conversation is made *)
    repeat split.
    + apply Forall_app. split.
      * eapply Forall_impl; [|exact Hcs]. intros e He. simpl in He. lia.
      * constructor; [|constructor]. simpl. lia.
    + apply Forall_app. split.
      * eapply Forall_impl; [|exact Hms]. intros m Hm. simpl in Hm. lia.
      * constructor; [|constructor]. simpl. lia.
    + apply Forall_app. split.
      * eapply Forall_impl; [|exact Hcv]. intros m Hm. simpl in Hm. lia.
      * constructor; [|constructor]. simpl. lia.
    + rewrite map_app. simpl.
      apply NoDup_app; [exact Hndc | repeat constructor; intros [] |].
      intros x Hx [<-|[]]. apply in_map_iff in Hx. destruct Hx as [e [He Hein]].
      pose proof (proj1 (Forall_forall _ _) Hcs e Hein) as Hlt. simpl in Hlt. lia.
    + rewrite map_app. simpl.
      apply NoDup_app; [exact Hndm | repeat constructor; intros [] |].
      intros x Hx [<-|[]]. apply in_map_iff in Hx. destruct Hx as [m [Hm Hmin]].
      pose proof (proj1 (Forall_forall _ _) Hms m Hmin) as Hlt. simpl in Hlt. lia.
    + apply Forall_app. split.
      * apply Forall_forall. intros m Hm.
        pose proof (proj1 (Forall_forall _ _) Hok m Hm) as Hsound.
        pose proof (proj1 (Forall_forall _ _) Hcv m Hm) as Hlt. simpl in Hlt.
        revert Hsound. apply message_sound_kept.
        intros c' Hc' Hid. apply in_app_or in Hc'. destruct Hc' as [Hc'|[<-|[]]].
        -- exists c'. split; [exact Hc' | apply conv_kept_refl].
        -- simpl in Hid. lia.
      * constructor; [|constructor]. unfold message_sound.
        cbn [Message.conversationId Message.senderId Message.readBy].
        split; [now left|]. split; [repeat constructor; intros []|].
        intros c' Hc' Hid. apply in_app_or in Hc'. destruct Hc' as [Hc'|[<-|[]]].
        -- pose proof (proj1 (Forall_forall _ _) Hcs c' Hc') as Hlt. simpl in Hlt. lia.
        -- cbn [Conversation.participants].
           split; [now left|]. intros x [<-|[]]. now left.
Qed.

Lemma empty_store_sound (us : list ObjectId) : store_sound (mkStore us [] [] 0).
Proof. unfold store_sound, ids_below. simpl. repeat split; constructor. Qed.

Lemma reachable_sound (rd : option bool) (s : Store) :
  reachable rd s -> store_sound s.
Proof.
  induction 1 as [us|s r Hr IH]; [apply empty_store_sound|].
  apply (transition_sound rd s); [|exact IH].
  apply handle_transition. now destruct IH.
Qed.

(** X2. The empty store is sound, and every request leaves a sound store
    sound: identifiers (also those of the conversations that messages name)
    stay below the counter, no identifier is used twice, and every stored
    message has its writer among its readers, names no reader twice and, if
    the conversation it names is stored, is written and read by participants
    of that conversation only.  The store before the request need not have
    been produced by complete handler runs: it may hold messages whose
    conversation was never saved. *)
Theorem stored_messages_ok (rd : option bool) (r : Request) (s : Store)
    (us : list ObjectId) (Hs : store_sound s) :
  store_sound (mkStore us [] [] 0) /\ store_sound (handle rd r s).
Proof.
  split; [apply empty_store_sound|].
  apply (transition_sound rd s); [|exact Hs].
  apply handle_transition. now destruct Hs.
Qed.

Lemma store_dangling_sound : store_sound store_dangling.
Proof.
  unfold store_sound, ids_below, store_dangling, message_sound. simpl.
  repeat split; repeat constructor; simpl; try lia; try tauto.
Qed.

(** X2, for a store with a message whose conversation was never saved, and
    the request of the same user that makes the conversation anew. *)
Lemma stored_messages_ok_witness :
  store_sound (mkStore [alice; bob; carol] [] [] 0)
  /\ store_sound
       (handle None
          (CreateConversation 6 alice (mkCreateBody (Some bob) None (Some "again"%string)))
          store_dangling).
Proof.
  apply (stored_messages_ok None
           (CreateConversation 6 alice (mkCreateBody (Some bob) None (Some "again"%string)))
           store_dangling [alice; bob; carol]).
  exact store_dangling_sound.
Defined.

Lemma msg_findById_unique (ms : Message.collection) (m : Message.doc) :
  NoDup (map Message._id ms) -> In m ms -> Message.findById (Message._id m) ms = Some m.
Proof.
  unfold Message.findById.
  induction ms as [|a l IH]; simpl; [contradiction|].
  intros Hnd Hin. inversion Hnd as [|x xs Hnotin Hnd']; subst.
  destruct Hin as [->|Hin]; [now rewrite Nat.eqb_refl|].
  destruct (Message._id a =? Message._id m) eqn:E; [|now apply IH].
  apply Nat.eqb_eq in E. exfalso. apply Hnotin. rewrite E. now apply in_map.
Qed.

Lemma conv_findById_unique (cs : Conversation.collection) (c : Conversation.doc) :
  NoDup (map Conversation._id cs) -> In c cs ->
  Conversation.findById (Conversation._id c) cs = Some c.
Proof.
  intros Hnd Hin. destruct (findById_present c cs Hin) as [c0 Hc0].
  destruct (findById_id _ _ _ Hc0) as [Hin0 Hid0].
  now rewrite (nodup_id_unique cs c0 c Hnd Hin0 Hin Hid0) in Hc0.
Qed.

(** X3. In every store the handlers have produced, identifiers are never
    shared: a stored conversation is what findById returns for its
    identifier, a stored message likewise, and every identifier in use lies
    below the generator's counter. *)
Theorem stored_documents_found (rd : option bool) (s : Store) (Hr : reachable rd s) :
  (forall c, In c (conversations s) ->
             Conversation.findById (Conversation._id c) (conversations s) = Some c
             /\ Conversation._id c < next_id s)
  /\ (forall m, In m (messages s) ->
                Message.findById (Message._id m) (messages s) = Some m
                /\ Message._id m < next_id s).
Proof.
  destruct (reachable_inv rd s Hr) as [[Hcs Hms] _].
  destruct (reachable_sound rd s Hr) as [_ [_ [_ [Hndm _]]]].
  pose proof (reachable_nodup rd s Hr) as Hndc.
  split.
  - intros c Hc. split; [now apply conv_findById_unique|].
    exact (proj1 (Forall_forall _ _) Hcs c Hc).
  - intros m Hm. split; [now apply msg_findById_unique|].
    exact (proj1 (Forall_forall _ _) Hms m Hm).
Qed.

(** X3, for the store after one createConversation. *)
Lemma stored_documents_found_witness :
  (forall c, In c (conversations store1) ->
             Conversation.findById (Conversation._id c) (conversations store1) = Some c
             /\ Conversation._id c < next_id store1)
  /\ (forall m, In m (messages store1) ->
                Message.findById (Message._id m) (messages store1) = Some m
                /\ Message._id m < next_id store1).
Proof.
  apply (stored_documents_found None store1).
  apply reach_step. apply reach_empty.
Defined.

(** ** How each operation moves the unread counts *)

Lemma unread_count_map (f : Message.doc -> Message.doc) (D W : ObjectId)
    (ms : Message.collection) :
  (forall m, Message.q_unread D W (f m) = Message.q_unread D W m) ->
  unread_count_spec D W (map f ms) = unread_count_spec D W ms.
Proof.
  intros Hf. induction ms as [|m ms IH]; [reflexivity|].
  cbn [map unread_count_spec]. now rewrite !unread_step, Hf, IH.
Qed.

Lemma includes_snoc_other (W U : ObjectId) (l : list ObjectId) :
  W <> U -> includes W (l ++ [U]) = includes W l.
Proof.
  intros H. unfold includes. rewrite existsb_app. simpl.
  apply Nat.eqb_neq in H. rewrite H. now rewrite !orb_false_r.
Qed.

(** X5. Opening a thread changes nobody's unread count: whoever calls
    listMessages on whatever conversation, for every viewer and every
    conversation the count of unread messages is afterwards what it was
    before, and so is every read-set. *)
Theorem listMessages_counts_unchanged (s : Store) (U C W D : ObjectId) :
  unread_count_spec D W (messages (snd (getMessagesByConversation U C s)))
  = unread_count_spec D W (messages s)
  /\ map Message.readBy (messages (snd (getMessagesByConversation U C s)))
     = map Message.readBy (messages s).
Proof.
  split; [|apply getMessagesByConversation_keeps_readBy].
  destruct (getMessagesByConversation_store U C s) as [->| ->]; [reflexivity|].
  cbn [messages]. apply unread_count_map. intros m.
  now destruct (Message.q_read_false C U m).
Qed.

(** X6. markRead(C, U) by a participant U empties U's unread count in C
    and moves no other count: for every viewer W and conversation D, the
    count afterwards is zero if W = U and D = C, and otherwise what it was. *)
Theorem markRead_counts (s : Store) (U C W D : ObjectId) (c : Conversation.doc)
    (Hc : Conversation.findById C (conversations s) = Some c)
    (HU : includes U (Conversation.participants c) = true) :
  unread_count_spec D W (messages (snd (markMessagesAsRead U C s)))
  = if (D =? C) && (W =? U) then 0 else unread_count_spec D W (messages s).
Proof.
  rewrite (markMessagesAsRead_participant s U C c Hc HU). cbn [snd messages].
  destruct ((D =? C) && (W =? U)) eqn:E.
  - apply andb_true_iff in E. destruct E as [E1 E2].
    apply Nat.eqb_eq in E1. apply Nat.eqb_eq in E2. subst D W.
    apply unread_none_after.
  - apply unread_count_map. intros m.
    destruct (Message.q_unread C U m) eqn:Q; [|reflexivity].
    apply q_unread_spec in Q. destruct Q as [Q1 [Q2 Q3]].
    unfold Message.q_unread. cbn [Message.u_addToSet_readBy Message.conversationId
                                   Message.senderId Message.readBy].
    rewrite (addToSet_absent _ _ Q3).
    destruct (Nat.eq_dec W U) as [->|HW].
    + rewrite Nat.eqb_refl, andb_true_r in E. rewrite Q1.
      rewrite Nat.eqb_sym in E. now rewrite E.
    + now rewrite (includes_snoc_other W U _ HW).
Qed.

(** X6, for user 2 in conversation 10 of the sample store. *)
Lemma markRead_counts_witness :
  unread_count_spec 10 bob (messages (snd (markMessagesAsRead bob 10 (store0 None)))) = 0.
Proof.
  apply (markRead_counts (store0 None) bob 10 bob 10
           (Conversation.mk 10 [alice; bob] None (Some 20) 5 5)).
  - reflexivity.
  - reflexivity.
Defined.

(** The two ways in which a request stores a message. *)
Lemma new_message_cases (rd : option bool) (now : nat) (U : ObjectId)
    (s s' : Store) (m : Message.doc) :
  reachable rd s ->
  (exists body pc, createConversation rd now U body s = (Sent (pc, m), s'))
  \/ (exists body, sendMessage rd now U body s = (Sent m, s')) ->
  (exists c T,
      In c (conversations s)
      /\ includes U (Conversation.participants c) = true
      /\ m = Message.mk (next_id s) (Conversation._id c) U T [U] rd now
      /\ s' = mkStore (users s)
                (Conversation.save now (Conversation.set_lastMessage (next_id s) c)
                   (conversations s))
                (messages s ++ [m]) (S (next_id s)))
  \/ (exists B I T,
        Conversation.findOne (Conversation.q_pair_item U B I) (conversations s) = None
        /\ m = Message.mk (S (next_id s)) (next_id s) U T [U] rd now
        /\ s' = mkStore (users s)
                  (conversations s
                   ++ [Conversation.mk (next_id s) [U; B] I (Some (S (next_id s))) now now])
                  (messages s ++ [m]) (S (S (next_id s)))).
Proof.
  intros Hr H. destruct (reachable_inv rd s Hr) as [[Hcs _] _].
  destruct H as [[body [pc H]]|[body H]].
  - destruct (createConversation_Sent _ _ _ _ _ _ _ H) as [B [T [Hb [HT HB]]]].
    rewrite Hb in H.
    destruct (Conversation.findOne
                (Conversation.q_pair_item U B (cb_itemId body)) (conversations s))
      as [c|] eqn:Hf.
    + rewrite (createConversation_existing rd now U B _ T s c HB HT Hf) in H.
      inversion H; subst. left. exists c, T.
      destruct (findOne_in _ _ _ Hf) as [Hin Hq].
      unfold Conversation.q_pair_item in Hq.
      apply andb_true_iff in Hq. destruct Hq as [Hq _].
      apply andb_true_iff in Hq. destruct Hq as [Hq _]. now repeat split.
    + rewrite (createConversation_new rd now U B _ T s HB HT Hf) in H.
      rewrite (save_twice_fresh now
                 (Conversation.mk (next_id s) [U; B] (cb_itemId body)
                    (Some (S (next_id s))) 0 0)
                 (conversations s) Hcs) in H.
      inversion H; subst. right. exists B, (cb_itemId body), T. now repeat split.
  - destruct (sendMessage_Sent _ _ _ _ _ _ _ H) as [C [T [c [Hb [HT [Hc HU]]]]]].
    rewrite Hb in H.
    rewrite (sendMessage_participant rd now s U C c T Hc HU HT) in H.
    inversion H; subst. left. exists c, T.
    destruct (findById_id _ _ _ Hc) as [Hin Hid]. rewrite Hid. now repeat split.
Qed.

(** X7. A message stored by createConversation or sendMessage counts as
    unread exactly once for everybody but its writer: for every viewer W and
    conversation D, the unread count goes up by one if D is the message's
    conversation and W is not the writer, and stays as it was otherwise. *)
Theorem new_message_counts (rd : option bool) (now : nat) (U W D : ObjectId)
    (s s' : Store) (m : Message.doc)
    (Hr : reachable rd s)
    (H : (exists body pc, createConversation rd now U body s = (Sent (pc, m), s'))
         \/ (exists body, sendMessage rd now U body s = (Sent m, s'))) :
  unread_count_spec D W (messages s')
  = unread_count_spec D W (messages s)
    + (if (Message.conversationId m =? D) && negb (W =? U) then 1 else 0).
Proof.
  assert (G : messages s' = messages s ++ [m]
              /\ Message.senderId m = U /\ Message.readBy m = [U]).
  { destruct (new_message_cases rd now U s s' m Hr H)
      as [[c [T [_ [_ [-> ->]]]]]|[B [I [T [_ [-> ->]]]]]]; now repeat split. }
  destruct G as [-> [Hs Hrb]].
  rewrite unread_count_spec_app. cbn [unread_count_spec]. rewrite unread_step.
  unfold Message.q_unread. rewrite Hs, Hrb. unfold includes. cbn [existsb].
  rewrite orb_false_r, (Nat.eqb_sym U W), Nat.add_0_r.
  now destruct (Message.conversationId m =? D), (W =? U).
Qed.

(** X7, for a reply of user 2 seen by user 1. *)
Lemma new_message_counts_witness :
  unread_count_spec 0 alice
    (messages (snd (sendMessage None 9 bob (mkSendBody (Some 0) (Some "re"%string)) store1)))
  = unread_count_spec 0 alice (messages store1) + 1.
Proof.
  apply (new_message_counts None 9 bob alice 0 store1
           (snd (sendMessage None 9 bob (mkSendBody (Some 0) (Some "re"%string)) store1))
           (Message.mk 2 0 bob "re" [bob] None 9)).
  - apply reach_step. apply reach_empty.
  - right. exists (mkSendBody (Some 0) (Some "re"%string)). reflexivity.
Defined.

Lemma unread_zero_elsewhere (D W : ObjectId) (ms : Message.collection) :
  Forall (fun m => Message.conversationId m <> D) ms -> unread_count_spec D W ms = 0.
Proof.
  induction 1 as [|m ms Hm Hms IH]; [reflexivity|].
  cbn [unread_count_spec]. rewrite IH.
  destruct (Nat.eq_dec (Message.conversationId m) D); [contradiction | reflexivity].
Qed.

(** X8. First contact.  In a store the handlers have produced, let A write
    to another user B about item I (or none), with a non-empty text, when the
    lookup finds no conversation of the two about I.  Then createConversation
    adds exactly one conversation, with participants A and B and item I,
    created and updated at the request's time; the conversation it returns
    has the new message, carrying the text, as its populated last message; and
    the conversation list then shows one unread message to B and none to A. *)
Theorem first_contact (rd : option bool) (now : nat) (A B : ObjectId)
    (I : option ObjectId) (T : string) (s : Store)
    (Hr : reachable rd s)
    (HAB : A <> B)
    (HB : includes B (users s) = true)
    (HT : T <> EmptyString)
    (Hf : Conversation.findOne (Conversation.q_pair_item A B I) (conversations s) = None) :
  exists p m s',
    createConversation rd now A (mkCreateBody (Some B) I (Some T)) s
    = (Sent (Some p, m), s')
    /\ p_doc p = Conversation.mk (next_id s) [A; B] I (Some (Message._id m)) now now
    /\ p_lastMessage p = Some m
    /\ Message.content m = T
    /\ Message.conversationId m = next_id s
    /\ conversations s' = conversations s ++ [p_doc p]
    /\ listed_unreadCount B (next_id s) s' = Some 1
    /\ listed_unreadCount A (next_id s) s' = Some 0.
Proof.
  destruct (reachable_inv rd s Hr) as [[Hcs Hms] _].
  destruct (reachable_sound rd s Hr) as [_ [Hcv _]].
  set (dn := Conversation.mk (next_id s) [A; B] I (Some (S (next_id s))) now now).
  set (m := Message.mk (S (next_id s)) (next_id s) A T [A] rd now).
  set (s' := mkStore (users s) (conversations s ++ [dn]) (messages s ++ [m])
               (S (S (next_id s)))).
  assert (Hdn : Conversation.findById (next_id s) (conversations s') = Some dn).
  { unfold Conversation.findById, Conversation.findOne. cbn [conversations s'].
    rewrite find_app_fresh.
    - simpl. now rewrite Nat.eqb_refl.
    - destruct (List.find _ (conversations s)) as [x|] eqn:Ex; [|reflexivity].
      apply find_some in Ex. destruct Ex as [Hx He]. apply Nat.eqb_eq in He.
      pose proof (proj1 (Forall_forall _ _) Hcs x Hx) as Hlt. simpl in Hlt. lia. }
  assert (Hm : Message.findById (S (next_id s)) (messages s') = Some m).
  { apply (msg_findById_fresh m (messages s) (next_id s) Hms). simpl. lia. }
  assert (Hold : unread_count_spec (next_id s) B (messages s) = 0
                 /\ unread_count_spec (next_id s) A (messages s) = 0).
  { split; apply unread_zero_elsewhere; apply Forall_forall; intros x Hx;
      pose proof (proj1 (Forall_forall _ _) Hcv x Hx) as Hlt; simpl in Hlt; lia. }
  destruct Hold as [HoB HoA].
  exists (mkPopulated dn (populate_participants s' dn) (Some m)), m, s'.
  split.
  { rewrite (createConversation_new rd now A B I T s HB HT Hf).
    rewrite (save_twice_fresh now
               (Conversation.mk (next_id s) [A; B] I (Some (S (next_id s))) 0 0)
               (conversations s) Hcs).
    cbn [Conversation._id Conversation.participants Conversation.itemId
         Conversation.lastMessage].
    fold dn. fold m. fold s'. unfold populated. rewrite Hdn. cbn [option_map].
    unfold populate_lastMessage. cbn [Conversation.lastMessage dn]. now rewrite Hm. }
  repeat split.
  - rewrite (listed_unreadCount_participant s' B (next_id s) dn Hdn).
    + cbn [messages s']. rewrite unread_count_spec_app, HoB. cbn [unread_count_spec].
      rewrite unread_step.
      assert (Hq : Message.q_unread (next_id s) B m = true).
      { apply q_unread_spec. simpl. repeat split; [exact HAB|].
        intros [E|[]]. congruence. }
      now rewrite Hq.
    + unfold includes. simpl. rewrite Nat.eqb_refl. now rewrite orb_true_r.
  - rewrite (listed_unreadCount_participant s' A (next_id s) dn Hdn).
    + cbn [messages s']. rewrite unread_count_spec_app, HoA. cbn [unread_count_spec].
      rewrite unread_step.
      assert (Hq : Message.q_unread (next_id s) A m = false).
      { unfold Message.q_unread. simpl. now rewrite !Nat.eqb_refl. }
      now rewrite Hq.
    + unfold includes. simpl. now rewrite Nat.eqb_refl.
Qed.

(** X8, for the first message of user 1 to user 2, about item 4. *)
Lemma first_contact_witness :
  exists p m s',
    createConversation None 5 alice (mkCreateBody (Some bob) (Some 4) (Some "hi"%string))
      (mkStore [alice; bob; carol] [] [] 0)
    = (Sent (Some p, m), s')
    /\ p_doc p = Conversation.mk 0 [alice; bob] (Some 4) (Some (Message._id m)) 5 5
    /\ p_lastMessage p = Some m
    /\ Message.content m = "hi"%string
    /\ Message.conversationId m = 0
    /\ conversations s' = [] ++ [p_doc p]
    /\ listed_unreadCount bob 0 s' = Some 1
    /\ listed_unreadCount alice 0 s' = Some 0.
Proof.
  apply (first_contact None 5 alice bob (Some 4) "hi"%string
           (mkStore [alice; bob; carol] [] [] 0)).
  - apply reach_empty.
  - unfold alice, bob. lia.
  - reflexivity.
  - discriminate.
  - reflexivity.
Defined.

(** ** The conversation that was written to last comes first *)

(** X9. In a store the handlers have produced, let a createConversation
    or sendMessage be answered at a time later than every stored update time.
    Then for every participant V of the message's conversation,
    listConversations(V) has that conversation in first place, updated at the
    request's time and with the new message as its populated last message. *)
Theorem latest_conversation_first (rd : option bool) (now : nat) (U V : ObjectId)
    (s s' : Store) (m : Message.doc) (c : Conversation.doc)
    (Hr : reachable rd s)
    (H : (exists body pc, createConversation rd now U body s = (Sent (pc, m), s'))
         \/ (exists body, sendMessage rd now U body s = (Sent m, s')))
    (Hnow : Forall (fun e => Conversation.updatedAt e < now) (conversations s))
    (Hc : Conversation.findById (Message.conversationId m) (conversations s') = Some c)
    (HV : includes V (Conversation.participants c) = true) :
  exists o rest,
    getConversations V s' = (Sent (o :: rest), s')
    /\ Conversation._id (p_doc (conv o)) = Message.conversationId m
    /\ Conversation.updatedAt (p_doc (conv o)) = now
    /\ p_lastMessage (conv o) = Some m.
Proof.
  destruct (reachable_inv rd s Hr) as [[Hcs Hms] _].
  pose proof (reachable_nodup rd s Hr) as Hnd.
  (* every conversation of the new store is an old one or the one written to *)
  assert (Hnew : (forall e, In e (conversations s') ->
                    Conversation.updatedAt e < now
                    \/ (Conversation._id e = Message.conversationId m
                        /\ Conversation.updatedAt e = now
                        /\ Conversation.lastMessage e = Some (Message._id m)))
                 /\ Message.findById (Message._id m) (messages s') = Some m).
  { destruct (new_message_cases rd now U s s' m Hr H)
      as [[c0 [T [Hin [_ [-> ->]]]]]|[B [I [T [_ [-> ->]]]]]];
      cbn [conversations messages Message.conversationId Message._id].
    - split.
      + destruct (saved_kept now (next_id s) c0 _ Hnd Hin) as [g [Hg [Hk [Ho Hn]]]].
        rewrite Hg. intros e He. apply in_map_iff in He. destruct He as [e0 [<- He0]].
        destruct (Nat.eq_dec (Conversation._id e0) (Conversation._id c0)) as [E|E].
        * right. destruct (Hk e0 He0) as [K _]. destruct (Hn e0 He0 E) as [L1 L2].
          split; [congruence | now split].
        * left. rewrite (Ho e0 He0 E).
          exact (proj1 (Forall_forall _ _) Hnow e0 He0).
      + apply (msg_findById_fresh
                 (Message.mk (next_id s) (Conversation._id c0) U T [U] rd now)
                 (messages s) (next_id s) Hms). simpl. lia.
    - split.
      + intros e He. apply in_app_or in He. destruct He as [He|[<-|[]]].
        * left. exact (proj1 (Forall_forall _ _) Hnow e He).
        * right. now repeat split.
      + apply (msg_findById_fresh
                 (Message.mk (S (next_id s)) (next_id s) U T [U] rd now)
                 (messages s) (next_id s) Hms). simpl. lia. }
  destruct Hnew as [Hnew Hfind].
  destruct (findById_id _ _ _ Hc) as [Hcin Hcid].
  assert (Hcnow : Conversation.updatedAt c = now).
  { destruct (Hnew c Hcin) as [Hlt|[_ [E _]]]; [|exact E]. exfalso.
    destruct (new_message_cases rd now U s s' m Hr H)
      as [[c0 [T [Hin [_ [Em Es]]]]]|[B [I [T [_ [Em Es]]]]]]; subst m s';
      cbn [conversations Message.conversationId] in *.
    - destruct (findById_present c0 _ Hin) as [c1 Hc1].
      change (Conversation._id c0)
        with (Conversation._id (Conversation.set_lastMessage (next_id s) c0)) in Hc, Hc1.
      rewrite (findById_save now _ c1 _ Hc1) in Hc. inversion Hc; subst c.
      simpl in Hlt. lia.
    - pose proof (proj1 (Forall_forall _ _) Hcs) as Hb.
      unfold Conversation.findById, Conversation.findOne in Hc.
      rewrite find_app_fresh in Hc.
      + simpl in Hc. rewrite Nat.eqb_refl in Hc. inversion Hc; subst c.
        simpl in Hlt. lia.
      + destruct (List.find _ (conversations s)) as [x|] eqn:Ex; [|reflexivity].
        apply find_some in Ex. destruct Ex as [Hx He]. apply Nat.eqb_eq in He.
        specialize (Hb x Hx). simpl in Hb. lia. }
  (* the head of the sorted list *)
  assert (HL : In c (listed_docs V s')).
  { unfold listed_docs. eapply Permutation_in; [apply sort_by_perm|].
    unfold Conversation.find. apply filter_In. now split. }
  assert (Hs : StronglySorted
                 (fun a b => (Conversation.updatedAt b <=? Conversation.updatedAt a) = true)
                 (listed_docs V s')).
  { unfold listed_docs. apply sort_by_sorted.
    - intros a b. apply updatedAt_desc_total.
    - intros a b d. apply updatedAt_desc_trans. }
  rewrite getConversations_value.
  destruct (listed_docs V s') as [|h t] eqn:EL; [contradiction|].
  cbn [map]. do 2 eexists. split; [reflexivity|]. cbn [conv p_doc p_lastMessage].
  assert (Hh : In h (conversations s')).
  { assert (Hin : In h (listed_docs V s')) by (rewrite EL; now left).
    unfold listed_docs in Hin.
    apply (Permutation_in _ (Permutation_sym (sort_by_perm _ _))) in Hin.
    unfold Conversation.find in Hin. apply filter_In in Hin. now destruct Hin. }
  assert (Hge : now <= Conversation.updatedAt h).
  { destruct HL as [->|Ht]; [lia|].
    inversion Hs as [|x xs _ Hall]; subst.
    pose proof (proj1 (Forall_forall _ _) Hall c Ht) as Hle.
    apply Nat.leb_le in Hle. lia. }
  destruct (Hnew h Hh) as [Hlt|[E1 [E2 E3]]]; [lia|].
  repeat split; try assumption.
  unfold populate_lastMessage. now rewrite E3.
Qed.

(** X9, for a reply of user 2 as seen by user 1. *)
Lemma latest_conversation_first_witness :
  exists o rest,
    getConversations alice
      (snd (sendMessage None 9 bob (mkSendBody (Some 0) (Some "re"%string)) store1))
    = (Sent (o :: rest),
       snd (sendMessage None 9 bob (mkSendBody (Some 0) (Some "re"%string)) store1))
    /\ Conversation._id (p_doc (conv o)) = 0
    /\ Conversation.updatedAt (p_doc (conv o)) = 9
    /\ p_lastMessage (conv o) = Some (Message.mk 2 0 bob "re" [bob] None 9).
Proof.
  apply (latest_conversation_first None 9 bob alice store1
           (snd (sendMessage None 9 bob (mkSendBody (Some 0) (Some "re"%string)) store1))
           (Message.mk 2 0 bob "re" [bob] None 9)
           (Conversation.mk 0 [alice; bob] None (Some 2) 5 9)).
  - apply reach_step. apply reach_empty.
  - right. exists (mkSendBody (Some 0) (Some "re"%string)). reflexivity.
  - repeat constructor.
  - reflexivity.
  - reflexivity.
Defined.

(** ** Outcomes of getConversation and createConversation *)

Lemma populated_includes (U : ObjectId) (s : Store) (c : Conversation.doc) :
  existsb (fun p => p =? U) (populate_participants s c)
  = includes U (Conversation.participants c) && includes U (users s).
Proof.
  unfold populate_participants, User_findById.
  apply Bool.eq_iff_eq_true.
  rewrite andb_true_iff, existsb_exists, !includes_In. split.
  - intros [p [Hp E]]. apply Nat.eqb_eq in E. subst p.
    apply filter_In in Hp. destruct Hp as [Hp Hu]. split; [exact Hp|].
    now apply includes_In.
  - intros [Hp Hu]. exists U. split; [|apply Nat.eqb_refl].
    apply filter_In. split; [exact Hp | now apply includes_In].
Qed.

(** X10. getConversation never changes the store.  It answers 404 when
    the conversation does not exist; it returns the conversation, with the
    participants that resolve to a user and the last message left as a
    reference, when the requesting user is a participant and has a user
    record; and it answers 401 in every other case. *)
Theorem getConversation_outcome (U C : ObjectId) (s : Store) :
  getConversation U C s
  = match Conversation.findById C (conversations s) with
    | None => (Next (mkError 404), s)
    | Some c =>
        if includes U (Conversation.participants c) && includes U (users s)
        then (Sent (mkPopulated c
                      (filter (fun p => includes p (users s))
                         (Conversation.participants c))
                      None), s)
        else (Next (mkError 401), s)
    end.
Proof.
  unfold getConversation, bind, gets, next, ret.
  destruct (Conversation.findById C (conversations s)) as [c|]; [|reflexivity].
  cbn [option_map p_participants]. rewrite populated_includes.
  now destruct (includes U (Conversation.participants c) && includes U (users s)).
Qed.

(** X11. createConversation answers 400, with the store untouched, when
    the receiver or the text is missing or the text is empty; otherwise 404,
    with the store untouched, when the receiver is no user; otherwise it is
    answered, whoever the requester is (the receiver itself included), and
    stores exactly one message, written by the requester, carrying the text
    and read by the requester only. *)
Theorem createConversation_outcome (rd : option bool) (now : nat) (A : ObjectId)
    (body : CreateBody) (s : Store) :
  match cb_receiverId body, truthy (cb_initialMessage body) with
  | Some B, Some T =>
      if includes B (users s)
      then exists pc m s',
             createConversation rd now A body s = (Sent (pc, m), s')
             /\ messages s' = messages s ++ [m]
             /\ Message.senderId m = A
             /\ Message.content m = T
             /\ Message.readBy m = [A]
             /\ Message.createdAt m = now
             /\ users s' = users s
      else createConversation rd now A body s = (Next (mkError 404), s)
  | _, _ => createConversation rd now A body s = (Next (mkError 400), s)
  end.
Proof.
  destruct body as [[B|] I T0]; cbn [cb_receiverId cb_initialMessage];
    [|unfold createConversation; cbn [cb_receiverId cb_initialMessage];
      now destruct (truthy T0)].
  destruct (truthy T0) as [T|] eqn:Et;
    [|unfold createConversation; cbn [cb_receiverId cb_initialMessage];
      now rewrite Et].
  destruct (truthy_inv _ _ Et) as [-> HT].
  destruct (includes B (users s)) eqn:HB.
  - destruct (Conversation.findOne (Conversation.q_pair_item A B I) (conversations s))
      as [c|] eqn:Hf.
    + do 3 eexists.
      split; [apply (createConversation_existing rd now A B I T s c HB HT Hf)|].
      now repeat split.
    + do 3 eexists.
      split; [apply (createConversation_new rd now A B I T s HB HT Hf)|].
      now repeat split.
  - unfold createConversation. cbn [cb_receiverId cb_initialMessage]. rewrite Et.
    unfold bind, gets, User_findById, next. now rewrite HB.
Qed.

(** ** Writing to a conversation that exists *)

(** X12. In a store the handlers have produced, when the lookup of
    createConversation(A, B, I, T) finds conversation c, the request stores
    the same message and leaves the same store as sendMessage by A to c with
    text T at the same time. *)
Theorem createConversation_is_sendMessage (rd : option bool) (now : nat)
    (A B : ObjectId) (I : option ObjectId) (T : string) (s : Store)
    (c : Conversation.doc)
    (Hr : reachable rd s)
    (HB : includes B (users s) = true)
    (HT : T <> EmptyString)
    (Hf : Conversation.findOne (Conversation.q_pair_item A B I) (conversations s)
          = Some c) :
  exists pc m s',
    createConversation rd now A (mkCreateBody (Some B) I (Some T)) s = (Sent (pc, m), s')
    /\ sendMessage rd now A (mkSendBody (Some (Conversation._id c)) (Some T)) s
       = (Sent m, s').
Proof.
  destruct (findOne_in _ _ _ Hf) as [Hin Hq].
  pose proof (conv_findById_unique _ c (reachable_nodup rd s Hr) Hin) as Hc.
  assert (HA : includes A (Conversation.participants c) = true).
  { unfold Conversation.q_pair_item in Hq.
    apply andb_true_iff in Hq. destruct Hq as [Hq _].
    apply andb_true_iff in Hq. now destruct Hq. }
  do 3 eexists. split.
  - apply (createConversation_existing rd now A B I T s c HB HT Hf).
  - apply (sendMessage_participant rd now s A (Conversation._id c) c T Hc HA HT).
Qed.

(** X12, for a second message of user 1 to user 2 in the store after one
    createConversation. *)
Lemma createConversation_is_sendMessage_witness :
  exists pc m s',
    createConversation None 9 alice (mkCreateBody (Some bob) None (Some "again"%string))
      store1 = (Sent (pc, m), s')
    /\ sendMessage None 9 alice (mkSendBody (Some 0) (Some "again"%string)) store1
       = (Sent m, s').
Proof.
  apply (createConversation_is_sendMessage None 9 alice bob None "again"%string store1
           (Conversation.mk 0 [alice; bob] None (Some 1) 5 5)).
  - apply reach_step. apply reach_empty.
  - reflexivity.
  - discriminate.
  - reflexivity.
Defined.

(** * Further properties of the components *)

(** ** The conversation list *)

Lemma list_running_step (P : ConversationList.View -> Prop) :
  (forall v, P v -> P (ConversationList.step v ConversationList.Tick)) ->
  (forall v i r, P v -> P (ConversationList.step v (ConversationList.Settle i r))) ->
  forall es v, forallb list_running es = true -> P v ->
               P (fold_left ConversationList.step es v).
Proof.
  intros HT HS. induction es as [|e es IH]; intros v Hes Hv; [exact Hv|].
  cbn [forallb] in Hes. apply andb_true_iff in Hes. destruct Hes as [He Hes].
  cbn [fold_left]. apply IH; [exact Hes|].
  destruct e; try discriminate; [now apply HT | now apply HS].
Qed.

Lemma nth_error_remove_all {A} (P : A -> Prop) (i : nat) (l : list A) :
  Forall P l -> Forall P (remove_nth i l).
Proof.
  revert i. induction l as [|a l IH]; intros i Hl; [now destruct i|].
  inversion Hl; subst. destruct i; simpl; [assumption|].
  constructor; [assumption | now apply IH].
Qed.

Lemma nth_error_Forall {A} (P : A -> Prop) (i : nat) (l : list A) (x : A) :
  Forall P l -> nth_error l i = Some x -> P x.
Proof.
  intros Hl Hx. apply nth_error_In in Hx.
  exact (proj1 (Forall_forall P l) Hl x Hx).
Qed.

Lemma list_settled_kept (err : bool) (es : list ConversationList.Event)
    (v : ConversationList.View) :
  forallb list_running es = true -> list_settled err v ->
  list_settled err (fold_left ConversationList.step es v).
Proof.
  apply (list_running_step (list_settled err)).
  - intros w [He [Hl Hp]]. cbn [ConversationList.step].
    destruct (ConversationList.interval w); [|now repeat split].
    unfold ConversationList.fetchConversations.
    destruct (ConversationList.effect_isFetching w && true); [now repeat split|].
    unfold list_settled. cbn. repeat split; try assumption.
    apply Forall_app. split; [exact Hp | now repeat constructor].
  - intros w i r [He [Hl Hp]]. cbn [ConversationList.step].
    destruct (nth_error (ConversationList.pending w) i) as [p|] eqn:E;
      [|now repeat split].
    pose proof (nth_error_Forall _ i _ p Hp E) as ->.
    unfold list_settled. cbn [ConversationList.state ConversationList.pending].
    split; [|split].
    + destruct r; exact He.
    + destruct r; exact Hl.
    + now apply nth_error_remove_all.
Qed.

Lemma list_waiting_kept (es : list ConversationList.Event) (v : ConversationList.View) :
  forallb list_behind es = true -> list_waiting v ->
  list_waiting (fold_left ConversationList.step es v).
Proof.
  revert v. induction es as [|e es IH]; intros v Hes Hv; [exact Hv|].
  cbn [forallb] in Hes. apply andb_true_iff in Hes. destruct Hes as [He Hes].
  cbn [fold_left]. apply IH; [exact Hes|]. clear IH Hes.
  destruct Hv as [Herr [Hl [polls [Hp Hall]]]].
  destruct e as [| |[|i] r|]; try discriminate; cbn [ConversationList.step].
  - destruct (ConversationList.interval v); [|now repeat split; eauto].
    unfold ConversationList.fetchConversations.
    destruct (ConversationList.effect_isFetching v && true);
      [now repeat split; eauto|].
    unfold list_waiting. cbn. repeat split; try assumption.
    exists (polls ++ [true]). rewrite Hp. split; [reflexivity|].
    apply Forall_app. split; [exact Hall | now repeat constructor].
  - rewrite Hp. cbn [nth_error].
    destruct (nth_error polls i) as [p|] eqn:E;
      [|unfold list_waiting; rewrite Hp; now repeat split; eauto].
    pose proof (nth_error_Forall _ i _ p Hall E) as ->.
    unfold list_waiting. cbn [ConversationList.state ConversationList.pending remove_nth].
    split; [destruct r; exact Herr|]. split; [destruct r; exact Hl|].
    exists (remove_nth i polls). split; [reflexivity|].
    now apply nth_error_remove_all.
Qed.

Lemma list_first_load_settles (r : Response) (es1 es2 : list ConversationList.Event) :
  forallb list_behind es1 = true -> forallb list_running es2 = true ->
  list_settled (match r with Some _ => false | None => true end)
    (ConversationList.run
       (ConversationList.Mount :: es1 ++ ConversationList.Settle 0 r :: es2)).
Proof.
  intros H1 H2. unfold ConversationList.run. cbn [fold_left].
  rewrite fold_left_app.
  set (w := fold_left ConversationList.step es1
              (ConversationList.step ConversationList.unmounted
                 ConversationList.Mount)).
  cbn [fold_left].
  apply list_settled_kept; [exact H2|].
  assert (Hw : list_waiting w).
  { apply list_waiting_kept; [exact H1|]. unfold list_waiting. cbn.
    repeat split. exists []. now split. }
  destruct Hw as [Herr [Hl [polls [Hp Hall]]]].
  cbn [ConversationList.step]. rewrite Hp. cbn [nth_error remove_nth].
  unfold list_settled. cbn [ConversationList.state ConversationList.pending].
  destruct r; cbn; repeat split; assumption.
Qed.

(** X13. Background failures are never shown.  Once the first load of
    the conversation list has come back with data - polls may have gone out
    and settled before it did - then whatever the timer and the requests do
    afterwards, polls failing or succeeding in any order, the error stays
    unset, the spinner stays away, only polls are pending, and the component
    renders the list or the empty note. *)
Theorem list_poll_failures_hidden (data : list ObjectId)
    (es1 es2 : list ConversationList.Event)
    (H1 : forallb list_behind es1 = true)
    (H2 : forallb list_running es2 = true) :
  let v := ConversationList.run
             (ConversationList.Mount
              :: es1 ++ ConversationList.Settle 0 (Some data) :: es2) in
  list_settled false v
  /\ render_ConversationList (ConversationList.state v) <> ListSpinner
  /\ render_ConversationList (ConversationList.state v) <> ListError.
Proof.
  intros v.
  pose proof (list_first_load_settles (Some data) es1 es2 H1 H2) as H.
  fold v in H. split; [exact H|]. destruct H as [He [Hl _]].
  unfold render_ConversationList. rewrite Hl, He. cbn [andb].
  split; destruct (List.length _ =? 0); discriminate.
Qed.

(** X13, with a poll that fails before the first load is back, and a
    failing and a succeeding poll after it. *)
Lemma list_poll_failures_hidden_witness :
  let v := ConversationList.run
             (ConversationList.Mount
              :: [ConversationList.Tick; ConversationList.Settle 1 None]
                 ++ ConversationList.Settle 0 (Some [10])
                    :: [ConversationList.Tick; ConversationList.Settle 0 None;
                        ConversationList.Tick;
                        ConversationList.Settle 0 (Some [10; 11])]) in
  list_settled false v
  /\ render_ConversationList (ConversationList.state v) <> ListSpinner
  /\ render_ConversationList (ConversationList.state v) <> ListError.
Proof.
  apply (list_poll_failures_hidden [10]
           [ConversationList.Tick; ConversationList.Settle 1 None]
           [ConversationList.Tick; ConversationList.Settle 0 None;
            ConversationList.Tick; ConversationList.Settle 0 (Some [10; 11])]).
  - reflexivity.
  - reflexivity.
Defined.

(** X14. A failed first load is final.  When the first request of the
    conversation list fails, the component renders the error message, and
    keeps rendering it whatever the timer and later requests do: polls go on
    and may bring data, but nothing clears the error. *)
Theorem list_first_failure_final (es1 es2 : list ConversationList.Event)
    (H1 : forallb list_behind es1 = true)
    (H2 : forallb list_running es2 = true) :
  render_ConversationList
    (ConversationList.state
       (ConversationList.run
          (ConversationList.Mount :: es1 ++ ConversationList.Settle 0 None :: es2)))
  = ListError.
Proof.
  destruct (list_first_load_settles None es1 es2 H1 H2) as [He [Hl _]].
  unfold render_ConversationList. now rewrite Hl, He.
Qed.

(** X14, with a poll that brings two conversations after the failure. *)
Lemma list_first_failure_final_witness :
  render_ConversationList
    (ConversationList.state
       (ConversationList.run
          (ConversationList.Mount
           :: [] ++ ConversationList.Settle 0 None
                 :: [ConversationList.Tick;
                     ConversationList.Settle 0 (Some [10; 11])])))
  = ListError.
Proof.
  apply (list_first_failure_final []
           [ConversationList.Tick; ConversationList.Settle 0 (Some [10; 11])]).
  - reflexivity.
  - reflexivity.
Defined.

Lemma remove_nth_length {A} (i : nat) (l : list A) :
  List.length (remove_nth i l) <= List.length l.
Proof.
  revert i. induction l as [|a l IH]; intros i; [now destruct i|].
  destruct i; simpl; [lia|]. specialize (IH i). lia.
Qed.

(** X15. Teardown.  After the conversation list is unmounted the timer is
    off: whatever timer firings and settling requests follow, no request is
    started, so the pending requests only get fewer. *)
Theorem list_unmount_stops_polling (v : ConversationList.View)
    (es : list ConversationList.Event)
    (Hes : forallb list_running es = true) :
  let w := fold_left ConversationList.step es
             (ConversationList.step v ConversationList.Unmount) in
  ConversationList.interval w = false
  /\ List.length (ConversationList.pending w) <= List.length (ConversationList.pending v).
Proof.
  apply (list_running_step
           (fun w => ConversationList.interval w = false
                     /\ List.length (ConversationList.pending w)
                        <= List.length (ConversationList.pending v))).
  - intros w [Hi Hl]. cbn [ConversationList.step]. rewrite Hi. now split.
  - intros w i r [Hi Hl]. cbn [ConversationList.step].
    destruct (nth_error (ConversationList.pending w) i); [|now split].
    cbn [ConversationList.interval ConversationList.pending]. split; [exact Hi|].
    pose proof (remove_nth_length i (ConversationList.pending w)). lia.
  - exact Hes.
  - cbn. split; [reflexivity | lia].
Qed.

(** X15, for a list unmounted while its first load and one poll are
    pending. *)
Lemma list_unmount_stops_polling_witness :
  let v := ConversationList.run [ConversationList.Mount; ConversationList.Tick] in
  let w := fold_left ConversationList.step
             [ConversationList.Tick; ConversationList.Settle 1 None;
              ConversationList.Tick]
             (ConversationList.step v ConversationList.Unmount) in
  ConversationList.interval w = false
  /\ List.length (ConversationList.pending w) <= List.length (ConversationList.pending v).
Proof.
  apply (list_unmount_stops_polling
           (ConversationList.run [ConversationList.Mount; ConversationList.Tick])
           [ConversationList.Tick; ConversationList.Settle 1 None;
            ConversationList.Tick]).
  reflexivity.
Defined.

(** ** The open thread *)

Lemma thread_loaded_step (v : ConversationComponent.View)
    (e : ConversationComponent.Event) :
  thread_running e = true -> thread_loaded v ->
  thread_loaded (ConversationComponent.step v e).
Proof.
  intros He [Herr Hp]. destruct e as [c| |i r|]; try discriminate;
    cbn [ConversationComponent.step].
  - destruct (ConversationComponent.interval v) as [id|]; [|now split].
    unfold ConversationComponent.fetchMessagesAndUpdateState, ConversationComponent.after.
    destruct (ConversationComponent.effect_isFetchingMessages v); [now split|].
    unfold thread_loaded. cbn. split; [exact Herr|].
    apply Forall_app. split; [exact Hp | now repeat constructor].
  - destruct (nth_error (ConversationComponent.pending v) i) as [t|] eqn:E;
      [|now split].
    pose proof (nth_error_Forall _ i _ t Hp E) as Ht.
    pose proof (nth_error_remove_all _ i _ Hp) as Hrem.
    destruct t as [seen id|init id|init id]; [discriminate| |];
      destruct r as [[|x xs]|]; destruct init;
      unfold thread_loaded; cbn; split; try assumption;
      apply Forall_app; split; try assumption; now repeat constructor.
Qed.

Lemma thread_loaded_kept (es : list ConversationComponent.Event)
    (v : ConversationComponent.View) :
  forallb thread_running es = true -> thread_loaded v ->
  thread_loaded (fold_left ConversationComponent.step es v).
Proof.
  revert v. induction es as [|e es IH]; intros v Hes Hv; [exact Hv|].
  cbn [forallb] in Hes. apply andb_true_iff in Hes. destruct Hes as [He Hes].
  cbn [fold_left]. apply IH; [exact Hes|]. now apply thread_loaded_step.
Qed.

Lemma thread_waiting_kept (id : ObjectId) (es : list ConversationComponent.Event)
    (v : ConversationComponent.View) :
  forallb thread_behind es = true -> thread_waiting id v ->
  thread_waiting id (fold_left ConversationComponent.step es v).
Proof.
  revert v. induction es as [|e es IH]; intros v Hes Hv; [exact Hv|].
  cbn [forallb] in Hes. apply andb_true_iff in Hes. destruct Hes as [He Hes].
  cbn [fold_left]. apply IH; [exact Hes|]. clear IH Hes.
  destruct Hv as [Herr [seen [rest [Hp Hall]]]].
  destruct e as [c| |[|i] r|]; try discriminate; cbn [ConversationComponent.step].
  - destruct (ConversationComponent.interval v) as [j|];
      [|split; [exact Herr | now exists seen, rest]].
    unfold ConversationComponent.fetchMessagesAndUpdateState, ConversationComponent.after.
    destruct (ConversationComponent.effect_isFetchingMessages v);
      [split; [exact Herr | now exists seen, rest]|].
    unfold thread_waiting. cbn. split; [exact Herr|].
    exists seen, (rest ++ [ConversationComponent.AwaitMessages false j]).
    rewrite Hp. split; [reflexivity|].
    apply Forall_app. split; [exact Hall | now repeat constructor].
  - rewrite Hp. cbn [nth_error].
    destruct (nth_error rest i) as [t|] eqn:E;
      [|unfold thread_waiting; rewrite Hp; split; [exact Herr | now exists seen, rest]].
    pose proof (nth_error_Forall _ i _ t Hall E) as Ht.
    pose proof (nth_error_remove_all _ i _ Hall) as Hrem.
    destruct t as [seen' id'|init id'|init id']; [discriminate| |];
      destruct r as [[|x xs]|]; destruct init;
      unfold thread_waiting; cbn; (split; [exact Herr|]);
      eexists; eexists; (split; [reflexivity|]);
      try assumption; apply Forall_app; split; try assumption;
      now repeat constructor.
Qed.

(** X16. In an open thread only the loading of the conversation details
    can raise the error.  Once the details of thread [id] have come back -
    fetches of messages may have gone out and settled before - then whatever
    the timer and the requests do afterwards, fetches and read-marks failing
    or succeeding in any order, the error stays unset and the component never
    renders the error message.  In particular a first fetch of the messages
    that fails leaves an empty thread on screen, not an error. *)
Theorem thread_fetch_failures_hidden (id : ObjectId) (x : list ObjectId)
    (es1 es2 : list ConversationComponent.Event)
    (H1 : forallb thread_behind es1 = true)
    (H2 : forallb thread_running es2 = true) :
  (let v := ConversationComponent.run
              (ConversationComponent.Show (Some id)
               :: es1 ++ ConversationComponent.Settle 0 (Some x) :: es2) in
   ConversationComponent.error (ConversationComponent.state v) = false
   /\ render_Conversation (Some id) (ConversationComponent.state v) <> ThreadError)
  /\ render_Conversation (Some id)
       (ConversationComponent.state
          (ConversationComponent.run
             [ConversationComponent.Show (Some id);
              ConversationComponent.Settle 0 (Some x);
              ConversationComponent.Settle 0 None]))
     = ThreadOf [].
Proof.
  split; [|reflexivity]. intros v.
  assert (H : thread_loaded v).
  { unfold v, ConversationComponent.run. cbn [fold_left].
    rewrite fold_left_app.
    set (w := fold_left ConversationComponent.step es1
                (ConversationComponent.step ConversationComponent.unmounted
                   (ConversationComponent.Show (Some id)))).
    cbn [fold_left]. apply thread_loaded_kept; [exact H2|].
    assert (Hw : thread_waiting id w).
    { apply thread_waiting_kept; [exact H1|]. unfold thread_waiting. cbn.
      split; [reflexivity|]. exists false, []. now split. }
    destruct Hw as [Herr [seen [rest [Hp Hall]]]].
    cbn [ConversationComponent.step]. rewrite Hp. cbn [nth_error remove_nth].
    cbn [ConversationComponent.resume].
    unfold ConversationComponent.fetchMessagesAndUpdateState, ConversationComponent.after.
    destruct seen; unfold thread_loaded; cbn; split; try assumption.
    apply Forall_app. split; [exact Hall | now repeat constructor]. }
  destruct H as [He _]. split; [exact He|].
  unfold render_Conversation. rewrite He.
  now destruct (ConversationComponent.loading _).
Qed.

(** X16, with a poll that fails before the details are back and a failing
    read-mark after them. *)
Lemma thread_fetch_failures_hidden_witness :
  (let v := ConversationComponent.run
              (ConversationComponent.Show (Some 10)
               :: [ConversationComponent.Tick; ConversationComponent.Settle 1 None]
                  ++ ConversationComponent.Settle 0 (Some [10])
                     :: [ConversationComponent.Settle 0 (Some [20]);
                         ConversationComponent.Settle 0 None]) in
   ConversationComponent.error (ConversationComponent.state v) = false
   /\ render_Conversation (Some 10) (ConversationComponent.state v) <> ThreadError)
  /\ render_Conversation (Some 10)
       (ConversationComponent.state
          (ConversationComponent.run
             [ConversationComponent.Show (Some 10);
              ConversationComponent.Settle 0 (Some [10]);
              ConversationComponent.Settle 0 None]))
     = ThreadOf [].
Proof.
  apply (thread_fetch_failures_hidden 10 [10]
           [ConversationComponent.Tick; ConversationComponent.Settle 1 None]
           [ConversationComponent.Settle 0 (Some [20]);
            ConversationComponent.Settle 0 None]).
  - reflexivity.
  - reflexivity.
Defined.

Lemma frozen_step (b : ObjectId) (v : ConversationComponent.View)
    (e : ConversationComponent.Event) :
  thread_running e = true ->
  ConversationComponent.effect_isFetchingMessages v = true
  /\ ConversationComponent.interval v = Some b
  /\ Forall (fun t => frozen_task b t = true) (ConversationComponent.pending v) ->
  ConversationComponent.effect_isFetchingMessages (ConversationComponent.step v e) = true
  /\ ConversationComponent.interval (ConversationComponent.step v e) = Some b
  /\ Forall (fun t => frozen_task b t = true)
       (ConversationComponent.pending (ConversationComponent.step v e)).
Proof.
  intros He [Hs [Hi Hp]]. destruct e as [c| |i r|]; try discriminate;
    cbn [ConversationComponent.step].
  - rewrite Hi, Hs. now repeat split.
  - destruct (nth_error (ConversationComponent.pending v) i) as [t|] eqn:E;
      [|now repeat split].
    pose proof (nth_error_Forall _ i _ t Hp E) as Ht.
    pose proof (nth_error_remove_all _ i _ Hp) as Hrem.
    destruct t as [seen id|init id|init id]; cbn [frozen_task] in Ht.
    + destruct r as [y|]; cbn [ConversationComponent.resume];
        [|now repeat split].
      unfold ConversationComponent.fetchMessagesAndUpdateState, ConversationComponent.after.
      destruct seen; cbn; repeat split; try assumption.
      apply Forall_app. split; [exact Hrem|]. constructor; [|constructor].
      cbn [frozen_task]. now rewrite orb_false_r in Ht.
    + destruct r as [[|y ys]|]; destruct init; cbn; repeat split; try assumption;
        apply Forall_app; split; try assumption; now repeat constructor.
    + destruct r, init; cbn; now repeat split.
Qed.

(** X17. A thread opened while [isFetchingMessages] is set never fetches.
    Let thread [b] be shown at a moment when the flag is set (a fetch of the
    thread shown before is in flight) and nothing for [b] is pending.  Then,
    whatever the timer and the requests do afterwards, no fetch of [b]'s
    messages and no read-mark for [b] is ever pending: the first load skips
    the fetch and every timer firing is dropped. *)
Theorem thread_opened_during_fetch_never_polls (b : ObjectId)
    (v : ConversationComponent.View) (es : list ConversationComponent.Event)
    (Hf : ConversationComponent.isFetchingMessages (ConversationComponent.state v) = true)
    (Hp : Forall (fun t => frozen_task b t = true) (ConversationComponent.pending v))
    (Hes : forallb thread_running es = true) :
  let w := fold_left ConversationComponent.step es
             (ConversationComponent.step v (ConversationComponent.Show (Some b))) in
  ConversationComponent.interval w = Some b
  /\ Forall (fun t => fetches_for b t = false) (ConversationComponent.pending w).
Proof.
  intros w.
  assert (H : ConversationComponent.effect_isFetchingMessages w = true
              /\ ConversationComponent.interval w = Some b
              /\ Forall (fun t => frozen_task b t = true)
                   (ConversationComponent.pending w)).
  { unfold w. clear w. revert Hes.
    assert (H0 : ConversationComponent.effect_isFetchingMessages
                   (ConversationComponent.step v (ConversationComponent.Show (Some b)))
                 = true
                 /\ ConversationComponent.interval
                      (ConversationComponent.step v (ConversationComponent.Show (Some b)))
                    = Some b
                 /\ Forall (fun t => frozen_task b t = true)
                      (ConversationComponent.pending
                         (ConversationComponent.step v
                            (ConversationComponent.Show (Some b))))).
    { cbn. repeat split; try assumption.
      apply Forall_app. split; [exact Hp|]. constructor; [|constructor].
      cbn [frozen_task]. rewrite Hf. apply orb_true_r. }
    revert H0.
    generalize (ConversationComponent.step v (ConversationComponent.Show (Some b))).
    induction es as [|e es IH]; intros u H0 Hes; [exact H0|].
    cbn [forallb] in Hes. apply andb_true_iff in Hes. destruct Hes as [He Hes].
    cbn [fold_left]. apply IH; [|exact Hes]. now apply frozen_step. }
  destruct H as [_ [Hi Hall]]. split; [exact Hi|].
  eapply Forall_impl; [|exact Hall]. intros t Ht.
  destruct t as [seen i|init i|init i]; cbn in *; [reflexivity| |];
    now apply negb_true_iff in Ht.
Qed.

(** X17, for thread 11 opened while the first fetch of thread 10 is in
    flight, followed by timer firings and the settling of all requests. *)
Lemma thread_opened_during_fetch_never_polls_witness :
  let v := ConversationComponent.run
             [ConversationComponent.Show (Some 10);
              ConversationComponent.Settle 0 (Some [10])] in
  let w := fold_left ConversationComponent.step
             [ConversationComponent.Tick;
              ConversationComponent.Settle 1 (Some [11]);
              ConversationComponent.Tick;
              ConversationComponent.Settle 0 (Some []);
              ConversationComponent.Tick]
             (ConversationComponent.step v (ConversationComponent.Show (Some 11))) in
  ConversationComponent.interval w = Some 11
  /\ Forall (fun t => fetches_for 11 t = false) (ConversationComponent.pending w).
Proof.
  apply (thread_opened_during_fetch_never_polls 11
           (ConversationComponent.run
              [ConversationComponent.Show (Some 10);
               ConversationComponent.Settle 0 (Some [10])])
           [ConversationComponent.Tick;
            ConversationComponent.Settle 1 (Some [11]);
            ConversationComponent.Tick;
            ConversationComponent.Settle 0 (Some []);
            ConversationComponent.Tick]).
  - reflexivity.
  - repeat constructor.
  - reflexivity.
Defined.

(** ** The message form *)

(** The form is idle, or one send is in flight and the input holds the text
    that was sent. *)
Lemma form_invariant (es : list MessageForm.Event) :
  match MessageForm.pending (MessageForm.run es) with
  | [] => MessageForm.sending (MessageForm.state (MessageForm.run es)) = false
  | [p] =>
      MessageForm.sending (MessageForm.state (MessageForm.run es)) = true
      /\ MessageForm.newMessage (MessageForm.state (MessageForm.run es))
         = MessageForm.content p
      /\ MessageForm.blank (MessageForm.content p) = false
  | _ :: _ :: _ => False
  end.
Proof.
  unfold MessageForm.run.
  assert (H0 : match MessageForm.pending MessageForm.initial with
               | [] => MessageForm.sending (MessageForm.state MessageForm.initial) = false
               | [p] =>
                   MessageForm.sending (MessageForm.state MessageForm.initial) = true
                   /\ MessageForm.newMessage (MessageForm.state MessageForm.initial)
                      = MessageForm.content p
                   /\ MessageForm.blank (MessageForm.content p) = false
               | _ :: _ :: _ => False
               end) by reflexivity.
  revert H0. generalize MessageForm.initial.
  induction es as [|e es IH]; intros v Hv; [exact Hv|].
  cbn [fold_left]. apply IH. clear IH.
  destruct v as [st pend]. cbn [MessageForm.pending MessageForm.state] in Hv.
  destruct pend as [|p [|q pend]]; [| |contradiction].
  - (* idle *)
    destruct e as [text| |data|i r]; cbn [MessageForm.step MessageForm.state].
    + rewrite Hv. cbn. reflexivity.
    + rewrite Hv. unfold MessageForm.handleSendMessage.
      cbn [MessageForm.state MessageForm.pending].
      destruct (MessageForm.blank (MessageForm.newMessage st)) eqn:Eb; cbn.
      * exact Hv.
      * now repeat split.
    + cbn. exact Hv.
    + destruct i; cbn; exact Hv.
  - (* one send in flight *)
    destruct Hv as [Hs [Hn Hb]].
    destruct e as [text| |data|i r]; cbn [MessageForm.step MessageForm.state].
    + rewrite Hs. cbn. now repeat split.
    + rewrite Hs. cbn. now repeat split.
    + cbn. now repeat split.
    + destruct i as [|[|i]]; cbn; [destruct r; reflexivity | |]; now repeat split.
Qed.

(** X18. The message form sends one text at a time, and never a blank
    one.  After any sequence of typing, submitting, polling and settling, at
    most one send is pending; one is pending exactly while [sending] is set;
    and while it is, the input still holds the text that was sent, which does
    not trim to nothing. *)
Theorem form_sends_one_at_a_time (es : list MessageForm.Event) :
  List.length (MessageForm.pending (MessageForm.run es)) <= 1
  /\ (MessageForm.sending (MessageForm.state (MessageForm.run es)) = true
      <-> MessageForm.pending (MessageForm.run es) <> [])
  /\ Forall (fun p =>
               MessageForm.blank (MessageForm.content p) = false
               /\ MessageForm.newMessage (MessageForm.state (MessageForm.run es))
                  = MessageForm.content p)
       (MessageForm.pending (MessageForm.run es)).
Proof.
  pose proof (form_invariant es) as H.
  destruct (MessageForm.pending (MessageForm.run es)) as [|p [|q l]];
    [| |contradiction].
  - split; [simpl; lia|]. split; [|constructor].
    rewrite H. split; [discriminate | congruence].
  - destruct H as [Hs [Hn Hb]]. split; [simpl; lia|]. split.
    + rewrite Hs. split; [discriminate | reflexivity].
    + constructor; [now split | constructor].
Qed.

Lemma last_default {A} (a : A) (l : list A) (d d' : A) :
  last (a :: l) d = last (a :: l) d'.
Proof.
  revert a. induction l as [|b l IH]; intros a; [reflexivity|].
  change (last (b :: l) d = last (b :: l) d'). apply IH.
Qed.

Lemma form_fold_polls (polls : list (list ObjectId)) (v : MessageForm.View) :
  MessageForm.pending (fold_left MessageForm.step (map MessageForm.Poll polls) v)
  = MessageForm.pending v
  /\ MessageForm.newMessage
       (MessageForm.state (fold_left MessageForm.step (map MessageForm.Poll polls) v))
     = MessageForm.newMessage (MessageForm.state v)
  /\ MessageForm.sending
       (MessageForm.state (fold_left MessageForm.step (map MessageForm.Poll polls) v))
     = MessageForm.sending (MessageForm.state v)
  /\ MessageForm.notifications
       (MessageForm.state (fold_left MessageForm.step (map MessageForm.Poll polls) v))
     = MessageForm.notifications (MessageForm.state v)
  /\ MessageForm.messages
       (MessageForm.state (fold_left MessageForm.step (map MessageForm.Poll polls) v))
     = last polls (MessageForm.messages (MessageForm.state v)).
Proof.
  revert v. induction polls as [|d polls IH]; intros v; [now repeat split|].
  cbn [map fold_left]. destruct (IH (MessageForm.step v (MessageForm.Poll d)))
    as [I1 [I2 [I3 [I4 I5]]]].
  rewrite I1, I2, I3, I4, I5. cbn [MessageForm.step MessageForm.pending MessageForm.state
    MessageForm.newMessage MessageForm.sending MessageForm.notifications
    MessageForm.messages].
  repeat split.
  destruct polls as [|l polls]; [reflexivity|].
  change (last (d :: l :: polls) (MessageForm.messages (MessageForm.state v)))
    with (last (l :: polls) (MessageForm.messages (MessageForm.state v))).
  apply last_default.
Qed.

(** X19. What a send leaves in the form.  Let a text that does not trim
    to nothing be submitted while no send is in flight, and let the poller
    replace the message list any number of times before the request settles.
    If the request succeeds, the list becomes the list as it was at
    submission followed by the stored message - whatever the polls brought in
    between is gone - and the input is emptied.  If it fails, the list is what
    the last poll brought, the input keeps the text, and one notification is
    raised.  Either way [sending] is reset and nothing is pending. *)
Theorem form_send_outcome (es : list MessageForm.Event)
    (polls : list (list ObjectId)) (r : option ObjectId)
    (Hs : MessageForm.sending (MessageForm.state (MessageForm.run es)) = false)
    (Hb : MessageForm.blank
            (MessageForm.newMessage (MessageForm.state (MessageForm.run es))) = false) :
  let before := MessageForm.state (MessageForm.run es) in
  let after := MessageForm.run
                 (es ++ MessageForm.Submit
                        :: map MessageForm.Poll polls ++ [MessageForm.Settle 0 r]) in
  MessageForm.pending after = []
  /\ MessageForm.sending (MessageForm.state after) = false
  /\ match r with
     | Some m =>
         MessageForm.messages (MessageForm.state after)
         = MessageForm.messages before ++ [m]
         /\ MessageForm.newMessage (MessageForm.state after) = []
         /\ MessageForm.notifications (MessageForm.state after)
            = MessageForm.notifications before
     | None =>
         MessageForm.messages (MessageForm.state after)
         = last polls (MessageForm.messages before)
         /\ MessageForm.newMessage (MessageForm.state after)
            = MessageForm.newMessage before
         /\ MessageForm.notifications (MessageForm.state after)
            = S (MessageForm.notifications before)
     end.
Proof.
  intros before after. unfold after, MessageForm.run.
  rewrite fold_left_app. cbn [fold_left]. rewrite fold_left_app. cbn [fold_left].
  fold (MessageForm.run es).
  pose proof (form_invariant es) as Hinv.
  assert (Hp : MessageForm.pending (MessageForm.run es) = []).
  { destruct (MessageForm.pending (MessageForm.run es)) as [|p [|q l]];
      [reflexivity | destruct Hinv; congruence | contradiction]. }
  clear Hinv.
  set (v1 := MessageForm.step (MessageForm.run es) MessageForm.Submit).
  assert (H1 : v1 = MessageForm.mkView
                      (MessageForm.mkState (MessageForm.messages before)
                         (MessageForm.newMessage before) true
                         (MessageForm.notifications before))
                      [MessageForm.mkParked (MessageForm.messages before)
                         (MessageForm.newMessage before)]).
  { unfold v1. cbn [MessageForm.step]. rewrite Hs.
    unfold MessageForm.handleSendMessage. rewrite Hb, Hp. reflexivity. }
  destruct (form_fold_polls polls v1) as [P1 [P2 [P3 [P4 P5]]]].
  set (v2 := fold_left MessageForm.step (map MessageForm.Poll polls) v1) in *.
  rewrite H1 in P1, P2, P3, P4, P5.
  cbn [MessageForm.pending MessageForm.state MessageForm.newMessage
       MessageForm.sending MessageForm.notifications MessageForm.messages]
    in P1, P2, P3, P4, P5.
  cbn [MessageForm.step]. rewrite P1. cbn [nth_error remove_nth].
  cbn [MessageForm.pending MessageForm.state].
  destruct r as [m|]; cbn; rewrite ?P2, ?P4, ?P5; now repeat split.
Qed.

(** X19, for a text typed into the fresh form, with one poll arriving
    before the send succeeds. *)
Lemma form_send_outcome_witness :
  let before := MessageForm.state (MessageForm.run [MessageForm.Type_ [104; 105]%N]) in
  let after := MessageForm.run
                 ([MessageForm.Type_ [104; 105]%N]
                  ++ MessageForm.Submit
                     :: map MessageForm.Poll [[20; 21]]
                        ++ [MessageForm.Settle 0 (Some 22)]) in
  MessageForm.pending after = []
  /\ MessageForm.sending (MessageForm.state after) = false
  /\ (MessageForm.messages (MessageForm.state after)
      = MessageForm.messages before ++ [22]
      /\ MessageForm.newMessage (MessageForm.state after) = []
      /\ MessageForm.notifications (MessageForm.state after)
         = MessageForm.notifications before).
Proof.
  apply (form_send_outcome [MessageForm.Type_ [104; 105]%N] [[20; 21]] (Some 22)).
  - reflexivity.
  - reflexivity.
Defined.

(** X20. The messages of the thread left behind stay on screen.  Thread
    [a] is shown and its details come back, so its first fetch of messages is
    in flight; thread [b] is shown; the fetch for [a] comes back with [data];
    the details of [b] come back.  From then on, whatever the timer and the
    requests do, the component shows [data], the messages of [a], as the
    thread [b]. *)
Theorem left_thread_stays_on_screen (a b : ObjectId) (x y data : list ObjectId)
    (es : list ConversationComponent.Event)
    (Hes : forallb thread_running es = true) :
  let v := ConversationComponent.run
             ([ConversationComponent.Show (Some a);
               ConversationComponent.Settle 0 (Some x);
               ConversationComponent.Show (Some b);
               ConversationComponent.Settle 0 (Some data);
               ConversationComponent.Settle 0 (Some y)] ++ es) in
  ConversationComponent.conversation (ConversationComponent.state v) = Some b
  /\ ConversationComponent.interval v = Some b
  /\ render_Conversation (Some b) (ConversationComponent.state v) = ThreadOf data.
Proof.
  intros v.
  assert (H : (ConversationComponent.messages (ConversationComponent.state v) = data
               /\ ConversationComponent.loading (ConversationComponent.state v) = false
               /\ ConversationComponent.error (ConversationComponent.state v) = false
               /\ ConversationComponent.conversation (ConversationComponent.state v)
                  = Some b)
              /\ ConversationComponent.effect_isFetchingMessages v = true
              /\ ConversationComponent.interval v = Some b
              /\ Forall (fun t => match t with
                                  | ConversationComponent.AwaitMarkRead _ _ => True
                                  | _ => False
                                  end) (ConversationComponent.pending v)).
  { unfold v, ConversationComponent.run. rewrite fold_left_app.
    set (v0 := fold_left ConversationComponent.step _ ConversationComponent.unmounted).
    assert (H0 : (ConversationComponent.messages (ConversationComponent.state v0) = data
                  /\ ConversationComponent.loading (ConversationComponent.state v0) = false
                  /\ ConversationComponent.error (ConversationComponent.state v0) = false
                  /\ ConversationComponent.conversation (ConversationComponent.state v0)
                     = Some b)
                 /\ ConversationComponent.effect_isFetchingMessages v0 = true
                 /\ ConversationComponent.interval v0 = Some b
                 /\ Forall (fun t => match t with
                                     | ConversationComponent.AwaitMarkRead _ _ => True
                                     | _ => False
                                     end) (ConversationComponent.pending v0)).
    { unfold v0. destruct data as [|d ds]; cbn; repeat split; repeat constructor. }
    clearbody v0. revert v0 H0 Hes.
    induction es as [|e es IH]; intros u H0 Hes; [exact H0|].
    cbn [forallb] in Hes. apply andb_true_iff in Hes. destruct Hes as [He Hes].
    cbn [fold_left]. apply IH; [|exact Hes]. clear IH Hes.
    destruct H0 as [[M1 [M2 [M3 M4]]] [Hs [Hi Hp]]].
    destruct e as [c| |i r|]; try discriminate; cbn [ConversationComponent.step].
    - rewrite Hi, Hs. cbn. now repeat split.
    - destruct (nth_error (ConversationComponent.pending u) i) as [t|] eqn:E;
        [|now repeat split].
      pose proof (nth_error_Forall _ i _ t Hp E) as Ht.
      pose proof (nth_error_remove_all _ i _ Hp) as Hrem.
      destruct t as [seen id|init id|init id]; try contradiction.
      destruct r, init; cbn; now repeat split. }
  destruct H as [[M1 [M2 [M3 M4]]] [_ [Hi _]]].
  split; [exact M4|]. split; [exact Hi|].
  unfold render_Conversation. now rewrite M2, M3, M1.
Qed.

(** X20, for threads 10 and 11, with timer firings and the read-mark of
    thread 10 settling afterwards. *)
Lemma left_thread_stays_on_screen_witness :
  let v := ConversationComponent.run
             ([ConversationComponent.Show (Some 10);
               ConversationComponent.Settle 0 (Some [10]);
               ConversationComponent.Show (Some 11);
               ConversationComponent.Settle 0 (Some [20; 21]);
               ConversationComponent.Settle 0 (Some [11])]
              ++ [ConversationComponent.Tick;
                  ConversationComponent.Settle 0 None;
                  ConversationComponent.Tick]) in
  ConversationComponent.conversation (ConversationComponent.state v) = Some 11
  /\ ConversationComponent.interval v = Some 11
  /\ render_Conversation (Some 11) (ConversationComponent.state v) = ThreadOf [20; 21].
Proof.
  apply (left_thread_stays_on_screen 10 11 [10] [11] [20; 21]
           [ConversationComponent.Tick;
            ConversationComponent.Settle 0 None;
            ConversationComponent.Tick]).
  reflexivity.
Defined.
